(** * The Ollama docs loader ([src/ollama.ts]): link rewriting, entry
    discovery, entry fetching and the store writes of one run.

    Strings are [string]: sequences of character codes.  Every character the
    loader inspects ([[], []], [(], [)], [#], [.], [/] and the letters of
    [.md] and [README.md]) is a single code, so the code-unit width of the
    host language's strings does not matter here. *)

From Stdlib Require Import Ascii String.
From stdpp Require Import gmap strings list pretty.

Open Scope string_scope.

(** ** The host language's string methods used by the loader *)

Module JS.

(** [s.startsWith(p)] *)
Definition startsWith (s p : string) : bool := String.prefix p s.

(** [s.substring(n)]: the string from index [n] to the end. *)
Fixpoint substring (n : nat) (s : string) : string :=
  match n, s with
  | 0, _ => s
  | S _, EmptyString => EmptyString
  | S n', String _ s' => substring n' s'
  end.

(** [s.endsWith(x)]: compare the last [length x] characters of [s] with [x]. *)
Definition endsWith (s x : string) : bool :=
  (String.length x <=? String.length s)%nat
  && String.eqb (substring (String.length s - String.length x) s) x.

(** [s.includes(x)]: [x] occurs at some index of [s]. *)
Fixpoint includes (s x : string) : bool :=
  String.prefix x s
  || match s with
     | EmptyString => false
     | String _ s' => includes s' x
     end.

(** [s.split(sep)] for a separator of one character: all the pieces, in
    order; never the empty array. *)
Fixpoint split (sep : ascii) (s : string) : list string :=
  match s with
  | EmptyString => [EmptyString]
  | String c s' =>
      if Ascii.eqb c sep then EmptyString :: split sep s'
      else match split sep s' with
           | piece :: pieces => String c piece :: pieces
           | [] => [String c EmptyString]
           end
  end.

(** The first [n] characters of [s]. *)
Fixpoint take (n : nat) (s : string) : string :=
  match n, s with
  | 0, _ => EmptyString
  | S _, EmptyString => EmptyString
  | S n', String c s' => String c (take n' s')
  end.

(** What a match consumed: [s] without its unread suffix [rest]. *)
Definition consumed (s rest : string) : string :=
  take (String.length s - String.length rest) s.

(** *** Regular expressions, as far as the loader's pattern needs them:
    escaped literals, negated one-character classes, the greedy [+] on a
    class, capture groups and concatenation.  Matching is the backtracking
    search of the host language, written with a continuation for what
    follows. *)

Inductive atom :=
| Is (c : ascii)
| IsNot (c : ascii).

Definition accepts (a : atom) (c : ascii) : bool :=
  match a with
  | Is x => Ascii.eqb c x
  | IsNot x => negb (Ascii.eqb c x)
  end.

Inductive regex :=
| Chr (a : atom)
| PlusOf (a : atom)
| Cap (r : regex)
| Cat (r1 r2 : regex).

(** Greedy [a+]: take one character, then prefer taking more; give back
    characters one at a time when what follows fails. *)
Fixpoint plus {R : Type} (a : atom) (s : string) (k : string -> option R) : option R :=
  match s with
  | EmptyString => None
  | String c s' =>
      if accepts a c then
        match plus a s' k with
        | Some r => Some r
        | None => k s'
        end
      else None
  end.

(** Captures are recorded when their group closes; the groups of the
    loader's pattern are not nested, so this is their numbering. *)
Fixpoint rmatch {R : Type} (r : regex) (s : string) (caps : list string)
  (k : string -> list string -> option R) : option R :=
  match r with
  | Chr a =>
      match s with
      | EmptyString => None
      | String c s' => if accepts a c then k s' caps else None
      end
  | PlusOf a => plus a s (fun rest => k rest caps)
  | Cap r1 => rmatch r1 s caps (fun rest caps' => k rest (caps' ++ [consumed s rest])%list)
  | Cat r1 r2 => rmatch r1 s caps (fun rest caps' => rmatch r2 rest caps' k)
  end.

(** One match attempt at the start of [s]: the captures and the unread rest. *)
Definition exec (r : regex) (s : string) : option (list string * string) :=
  rmatch r s [] (fun rest caps => Some (caps, rest)).

(** [s.replace(r, f)] for a global pattern [r] and a callback [f] that gets
    the matched text and the captures.  The scan goes left to right; after a
    match it resumes behind the match, and after an empty match one character
    further.  [fuel] bounds the number of scan steps. *)
Fixpoint replace_from (fuel : nat) (r : regex) (f : string -> list string -> string)
  (s : string) : string :=
  match fuel with
  | 0 => s
  | S fuel' =>
      match exec r s with
      | Some (caps, rest) =>
          if (String.length rest <? String.length s)%nat then
            f (consumed s rest) caps +:+ replace_from fuel' r f rest
          else
            f EmptyString caps
            +:+ match s with
                | EmptyString => EmptyString
                | String c s' => String c (replace_from fuel' r f s')
                end
      | None =>
          match s with
          | EmptyString => EmptyString
          | String c s' => String c (replace_from fuel' r f s')
          end
      end
  end.

Definition replace (r : regex) (f : string -> list string -> string) (s : string) : string :=
  replace_from (S (String.length s)) r f s.

(** [s.matchAll(r)]: the matches the same scan finds, each with its matched
    text and captures. *)
Fixpoint matchAll_from (fuel : nat) (r : regex) (s : string) : list (string * list string) :=
  match fuel with
  | 0 => []
  | S fuel' =>
      match exec r s with
      | Some (caps, rest) =>
          if (String.length rest <? String.length s)%nat then
            (consumed s rest, caps) :: matchAll_from fuel' r rest
          else
            (EmptyString, caps)
            :: match s with
               | EmptyString => []
               | String _ s' => matchAll_from fuel' r s'
               end
      | None =>
          match s with
          | EmptyString => []
          | String _ s' => matchAll_from fuel' r s'
          end
      end
  end.

Definition matchAll (r : regex) (s : string) : list (string * list string) :=
  matchAll_from (S (String.length s)) r s.

(** *** Values: what a parsed JSON body is made of, and [undefined] for a
    property that is missing.  Numbers matter to the loader only through
    their truthiness, so integers stand for them. *)

#[local] Set Warnings "-register-all".
Inductive value :=
| VUndefined
| VNull
| VBool (b : bool)
| VNum (n : Z)
| VStr (s : string)
| VArr (items : list value)
| VObj (fields : list (string * value)).

(** Conversion to a boolean, as [&&], [!] and [if] perform it. *)
Definition truthy (v : value) : bool :=
  match v with
  | VUndefined | VNull => false
  | VBool b => b
  | VNum n => negb (n =? 0)%Z
  | VStr s => negb (String.eqb s EmptyString)
  | VArr _ | VObj _ => true
  end.

(** The fields of an object: the first binding of a key is the field. *)
Fixpoint lookup (k : string) (fields : list (string * value)) : value :=
  match fields with
  | [] => VUndefined
  | (k', v) :: fields' => if String.eqb k k' then v else lookup k fields'
  end.

(** Assignment to a field: overwrite it in place, or add it at the end. *)
Fixpoint assign (k : string) (v : value) (fields : list (string * value))
  : list (string * value) :=
  match fields with
  | [] => [(k, v)]
  | (k', v') :: fields' =>
      if String.eqb k k' then (k, v) :: fields' else (k', v') :: assign k v fields'
  end.

Inductive error :=
| Error (message : string)
| TypeError
| SyntaxError.

(** The end of a computation that may throw. *)
Inductive completion (A : Type) :=
| Return (a : A)
| Throw (e : error).
Arguments Return {A} a.
Arguments Throw {A} e.

(** [v.k] for a key [k] that is no index and that no prototype defines (the
    loader reads [url] and [download_url] only): the field of an object,
    [undefined] on any other value, and a [TypeError] on [null] and
    [undefined]. *)
Definition get (v : value) (k : string) : completion value :=
  match v with
  | VUndefined | VNull => Throw TypeError
  | VObj fields => Return (lookup k fields)
  | VBool _ | VNum _ | VStr _ | VArr _ => Return VUndefined
  end.

(** The own enumerable properties that [{...v}] copies: the fields of an
    object, the indexed elements of an array, the indexed characters of a
    string, nothing for the other values. *)
Fixpoint indexed {A : Type} (i : nat) (l : list A) : list (string * A) :=
  match l with
  | [] => []
  | x :: l' => (pretty i, x) :: indexed (S i) l'
  end.

Fixpoint chars (s : string) : list value :=
  match s with
  | EmptyString => []
  | String c s' => VStr (String c EmptyString) :: chars s'
  end.

Definition spread (v : value) : list (string * value) :=
  match v with
  | VObj fields => fields
  | VArr items => indexed 0 items
  | VStr s => indexed 0 (chars s)
  | VUndefined | VNull | VBool _ | VNum _ => []
  end.

End JS.

(** ** The Link Rewriter: [transformMarkdownLinks] *)

(** [/\[([^\]]+)\]\(([^)]+)\)/g] *)
Definition linkRegex : JS.regex :=
  JS.Cat (JS.Chr (JS.Is "["))
    (JS.Cat (JS.Cap (JS.PlusOf (JS.IsNot "]")))
       (JS.Cat (JS.Chr (JS.Is "]"))
          (JS.Cat (JS.Chr (JS.Is "("))
             (JS.Cat (JS.Cap (JS.PlusOf (JS.IsNot ")")))
                (JS.Chr (JS.Is ")")))))).

(** The callback of the replacement, [(match, text, url) => ...]. *)
Definition replacer (match_ text url : string) : string :=
  if JS.startsWith url "./" || JS.startsWith url "../" then
    (* const [path, fragment] = url.split('#') *)
    let parts := JS.split "#" url in
    let path := nth 0 parts EmptyString in
    let fragment := nth_error parts 1 in
    let cleanPath := path in
    let cleanPath :=
      if JS.startsWith cleanPath "./" then JS.substring 2 cleanPath else cleanPath in
    let cleanPath :=
      if JS.startsWith cleanPath "../" then JS.substring 3 cleanPath else cleanPath in
    let newUrl :=
      "/docs/" +:+ cleanPath
      +:+ match fragment with
          | Some (String c f) => "#" +:+ String c f
          | Some EmptyString | None => EmptyString
          end in
    "[" +:+ text +:+ "](" +:+ newUrl +:+ ")"
  else match_.

Definition transformMarkdownLinks (markdownContent : string) : string :=
  JS.replace linkRegex
    (fun match_ groups =>
       replacer match_ (nth 0 groups EmptyString) (nth 1 groups EmptyString))
    markdownContent.


(** ** The records of the store: [z.infer<typeof docsSchema>] *)

Module Doc.

Record links := {
  self : string;
  git : string;
  html : string;
}.

Record record := {
  name : string;
  path : string;
  sha : string;
  size : Z;
  url : string;
  html_url : string;
  git_url : string;
  download_url : string;
  type_ : string;
  content : string;
  encoding : string;
  links_ : links;
}.

End Doc.

(** [docsSchema]: every field is there with its kind; fields the schema
    does not name are dropped. *)
Definition z_string (v : JS.value) : option string :=
  match v with
  | JS.VStr s => Some s
  | _ => None
  end.

Definition z_number (v : JS.value) : option Z :=
  match v with
  | JS.VNum n => Some n
  | _ => None
  end.

Definition z_links (v : JS.value) : option Doc.links :=
  match v with
  | JS.VObj fields =>
      self ← z_string (JS.lookup "self" fields);
      git ← z_string (JS.lookup "git" fields);
      html ← z_string (JS.lookup "html" fields);
      Some {| Doc.self := self; Doc.git := git; Doc.html := html |}
  | _ => None
  end.

Definition docsSchema (data : list (string * JS.value)) : option Doc.record :=
  name ← z_string (JS.lookup "name" data);
  path ← z_string (JS.lookup "path" data);
  sha ← z_string (JS.lookup "sha" data);
  size ← z_number (JS.lookup "size" data);
  url ← z_string (JS.lookup "url" data);
  html_url ← z_string (JS.lookup "html_url" data);
  git_url ← z_string (JS.lookup "git_url" data);
  download_url ← z_string (JS.lookup "download_url" data);
  type_ ← z_string (JS.lookup "type" data);
  content ← z_string (JS.lookup "content" data);
  encoding ← z_string (JS.lookup "encoding" data);
  links_ ← z_links (JS.lookup "_links" data);
  Some {| Doc.name := name; Doc.path := path; Doc.sha := sha; Doc.size := size;
          Doc.url := url; Doc.html_url := html_url; Doc.git_url := git_url;
          Doc.download_url := download_url; Doc.type_ := type_;
          Doc.content := content; Doc.encoding := encoding; Doc.links_ := links_ |}.

(** ** The platform the loader runs on *)

Record Options := {
  repo : string;
  path : string;
}.

Record DiscoveredRef := {
  selfUrl : JS.value;
  downloadUrl : JS.value;
}.

Record Response := {
  ok : bool;
  (** [await res.json()]: the parsed body, [None] where the body is not JSON
      and the call rejects *)
  json_body : option JS.value;
  (** [await res.text()] *)
  text_body : string;
}.

Definition Headers := list (string * string).

Record Platform := {
  (** [new URL(x)]: the address of [x] (converted to a string) in normal
      form, [None] where the constructor throws *)
  new_URL : JS.value -> option string;
  (** [fetch(url, { headers })]: the response, [None] where the request
      itself fails and the call rejects *)
  http : string -> Headers -> option Response;
  (** [context.parseData({ id, data })]: the record validated against
      [docsSchema], or the validation error *)
  parseData : JS.value -> list (string * JS.value) -> JS.completion Doc.record;
  (** the order in which the entry tasks started together reach their store
      write; the network decides it, and every task gets there *)
  schedule : list DiscoveredRef -> list DiscoveredRef;
  schedule_runs_all : forall entries, Permutation (schedule entries) entries;
}.

(** What a run can change: the content store, a map from keys to records,
    and the requests sent. *)
Record World := {
  store : gmap string Doc.record;
  requests : list (string * Headers);
}.

(** Computations that read and change the world and may throw. *)
Definition M (A : Type) : Type := World -> JS.completion A * World.

Definition ret {A : Type} (a : A) : M A := fun w => (JS.Return a, w).

Definition throw {A : Type} (e : JS.error) : M A := fun w => (JS.Throw e, w).

Definition bind {A B : Type} (c : M A) (k : A -> M B) : M B :=
  fun w =>
    match c w with
    | (JS.Return a, w') => k a w'
    | (JS.Throw e, w') => (JS.Throw e, w')
    end.

Notation "'let*' x ':=' c 'in' k" := (bind c (fun x => k))
  (at level 10, x name, c at level 100, k at level 200).

Definition lift {A : Type} (c : JS.completion A) : M A := fun w => (c, w).

Definition fetch (P : Platform) (url : string) (headers : Headers) : M Response :=
  fun w =>
    let w' := {| store := store w; requests := requests w ++ [(url, headers)] |} in
    match http P url headers with
    | Some res => (JS.Return res, w')
    | None => (JS.Throw JS.TypeError, w')
    end.

Definition res_json (res : Response) : M JS.value :=
  match json_body res with
  | Some v => ret v
  | None => throw JS.SyntaxError
  end.

(** Modelled from the spec: [context.store.set({ id, data })] of the host's
    content store, whose code is not in the repository.  The record is
    written under the key and overwrites any record there. *)
Definition store_set (id : string) (data : Doc.record) : M unit :=
  fun w => (JS.Return tt, {| store := <[id := data]> (store w); requests := requests w |}).

(** ** Entry Discovery: [fetchDocsEntries] *)

(** [entry => ({ selfUrl: entry.url, downloadUrl: entry.download_url })] *)
Definition toRef (entry : JS.value) : JS.completion DiscoveredRef :=
  match JS.get entry "url", JS.get entry "download_url" with
  | JS.Return u, JS.Return d => JS.Return {| selfUrl := u; downloadUrl := d |}
  | JS.Throw e, _ => JS.Throw e
  | _, JS.Throw e => JS.Throw e
  end.

(** The predicate of the filter.  [x.endsWith] exists on strings only:
    calling it on another truthy value is a [TypeError]. *)
Definition keep (entry : DiscoveredRef) : JS.completion bool :=
  if negb (JS.truthy (selfUrl entry)) then JS.Return false
  else if negb (JS.truthy (downloadUrl entry)) then JS.Return false
  else match downloadUrl entry with
       | JS.VStr d =>
           JS.Return (JS.endsWith d ".md" && negb (JS.includes d "README.md"))
       | _ => JS.Throw JS.TypeError
       end.

(** [Array.prototype.map] and [Array.prototype.filter] with callbacks that
    may throw: the first throw ends the call. *)
Fixpoint array_map {A B : Type} (f : A -> JS.completion B) (l : list A)
  : JS.completion (list B) :=
  match l with
  | [] => JS.Return []
  | x :: l' =>
      match f x with
      | JS.Throw e => JS.Throw e
      | JS.Return y =>
          match array_map f l' with
          | JS.Throw e => JS.Throw e
          | JS.Return ys => JS.Return (y :: ys)
          end
      end
  end.

Fixpoint array_filter {A : Type} (f : A -> JS.completion bool) (l : list A)
  : JS.completion (list A) :=
  match l with
  | [] => JS.Return []
  | x :: l' =>
      match f x with
      | JS.Throw e => JS.Throw e
      | JS.Return b =>
          match array_filter f l' with
          | JS.Throw e => JS.Throw e
          | JS.Return ys => JS.Return (if b then x :: ys else ys)
          end
      end
  end.

(** [json.map(...).filter(...)] *)
Definition selectEntries (items : list JS.value) : JS.completion (list DiscoveredRef) :=
  match array_map toRef items with
  | JS.Throw e => JS.Throw e
  | JS.Return entries => array_filter keep entries
  end.

Definition listingHeaders : Headers :=
  [("Accept", "application/vnd.github.v3+json"); ("User-Agent", "astro")].

Definition fetchDocsEntries (P : Platform) (options : Options) : M (list DiscoveredRef) :=
  match new_URL P (JS.VStr ("https://api.github.com/repos/" +:+ repo options
                            +:+ "/contents/" +:+ path options)) with
  | None => throw JS.TypeError
  | Some url =>
      let* res := fetch P url listingHeaders in
      if negb (ok res) then
        throw (JS.Error ("Failed to fetch " +:+ repo options +:+ path options
                         +:+ " from GitHub"))
      else
        let* json := res_json res in
        match json with
        | JS.VArr items => lift (selectEntries items)
        | _ => throw (JS.Error "Failed to fetch docs from GitHub")
        end
  end.

(** ** The Entry Fetcher: [parseEntry] *)

(** [{ ...metadata, content: transformMarkdownLinks(text) }] *)
Definition candidate (metadata : JS.value) (text : string) : list (string * JS.value) :=
  JS.assign "content" (JS.VStr (transformMarkdownLinks text)) (JS.spread metadata).

(** [metadata.url] of a truthy [metadata] *)
Definition candidate_id (metadata : JS.value) : JS.value :=
  match JS.get metadata "url" with
  | JS.Return v => v
  | JS.Throw _ => JS.VUndefined
  end.

Definition parseEntry (P : Platform) (entry : DiscoveredRef) : M (option Doc.record) :=
  (* try { new URL(entry.selfUrl); new URL(entry.downloadUrl) } catch { return null } *)
  match new_URL P (selfUrl entry), new_URL P (downloadUrl entry) with
  | Some selfUrl, Some downloadUrl =>
      let* metadataRes := fetch P selfUrl [] in
      if negb (ok metadataRes) then throw (JS.Error ("Failed to fetch " +:+ selfUrl))
      else
        let* metadata := res_json metadataRes in
        if negb (JS.truthy metadata) then throw (JS.Error ("Failed to fetch " +:+ selfUrl))
        else
          let* res := fetch P downloadUrl [] in
          if negb (ok res) then throw (JS.Error ("Failed to fetch " +:+ downloadUrl))
          else
            let text := text_body res in
            if String.eqb text EmptyString then
              throw (JS.Error ("Failed to fetch " +:+ downloadUrl))
            else
              let* data := lift (parseData P (candidate_id metadata) (candidate metadata text)) in
              ret (Some data)
  | _, _ => ret None
  end.

(** ** The Sync Orchestrator: [ollamaDocsLoader] and its [load] *)

(** The task of one entry: [async entry => { ... }]. *)
Definition entryTask (P : Platform) (entry : DiscoveredRef) : M unit :=
  let* data := parseEntry P entry in
  match data with
  | Some data => store_set (Doc.url data) data
  | None => ret tt
  end.

(** [Promise.all]: every task runs to its end whatever becomes of the
    others, and the first rejection is the rejection of the whole.  The tasks
    share the store only and each writes it once, as its last step, so a run
    is the run of the tasks one after the other in the order of their
    writes. *)
Fixpoint promise_all (tasks : list (M unit)) : M unit :=
  match tasks with
  | [] => ret tt
  | t :: tasks' =>
      fun w =>
        match t w with
        | (JS.Return _, w') => promise_all tasks' w'
        | (JS.Throw e, w') => (JS.Throw e, snd (promise_all tasks' w'))
        end
  end.

Record Loader := {
  name : string;
  schema : list (string * JS.value) -> option Doc.record;
  load : Platform -> M unit;
}.

Definition ollamaDocsLoader (options : Options) : Loader :=
  {| name := "ollama-docs-loader";
     schema := docsSchema;
     load := fun P =>
       let* entries := fetchDocsEntries P options in
       promise_all (map (entryTask P) (schedule P entries)) |}.

(** ** A small platform to run the loader on: a listing of four
    descriptors, of which two are documents, both with the metadata of one
    file. *)

Definition demoOptions : Options := {| repo := "ollama/ollama"; path := "docs" |}.

Definition demoMetadata : JS.value :=
  JS.VObj
    [("name", JS.VStr "api.md");
     ("path", JS.VStr "docs/api.md");
     ("sha", JS.VStr "0a1b2c");
     ("size", JS.VNum 64);
     ("url", JS.VStr "https://api.github.com/repos/ollama/ollama/contents/docs/api.md?ref=main");
     ("html_url", JS.VStr "https://github.com/ollama/ollama/blob/main/docs/api.md");
     ("git_url", JS.VStr "https://api.github.com/repos/ollama/ollama/git/blobs/0a1b2c");
     ("download_url", JS.VStr "https://raw.githubusercontent.com/ollama/ollama/main/docs/api.md");
     ("type", JS.VStr "file");
     ("content", JS.VStr "U2VlIFtJbnRyb10oLi9pbnRyby5tZCNzZXR1cCku");
     ("encoding", JS.VStr "base64");
     ("_links",
      JS.VObj
        [("self", JS.VStr "https://api.github.com/repos/ollama/ollama/contents/docs/api.md?ref=main");
         ("git", JS.VStr "https://api.github.com/repos/ollama/ollama/git/blobs/0a1b2c");
         ("html", JS.VStr "https://github.com/ollama/ollama/blob/main/docs/api.md")])].

Definition demoDescriptors : list (list (string * JS.value)) :=
  [ [("name", JS.VStr "api.md");
     ("url", JS.VStr "https://api.github.com/repos/ollama/ollama/contents/docs/api.md?ref=main");
     ("download_url", JS.VStr "https://raw.githubusercontent.com/ollama/ollama/main/docs/api.md")];
    [("name", JS.VStr "README.md");
     ("url", JS.VStr "https://api.github.com/repos/ollama/ollama/contents/docs/README.md?ref=main");
     ("download_url", JS.VStr "https://raw.githubusercontent.com/ollama/ollama/main/docs/README.md")];
    [("name", JS.VStr "images");
     ("url", JS.VStr "https://api.github.com/repos/ollama/ollama/contents/docs/images?ref=main");
     ("download_url", JS.VNull)];
    [("name", JS.VStr "api-v2.md");
     ("url", JS.VStr "https://api.github.com/repos/ollama/ollama/contents/docs/api.md");
     ("download_url", JS.VStr "https://raw.githubusercontent.com/ollama/ollama/main/docs/api-v2.md")] ].

Definition demoResponse (json : option JS.value) (text : string) : Response :=
  {| ok := true; json_body := json; text_body := text |}.

Definition demoPlatform : Platform :=
  {| new_URL := fun v =>
       match v with
       | JS.VStr s => if JS.startsWith s "https://" then Some s else None
       | _ => None
       end;
     http := fun url _ =>
       if String.eqb url "https://api.github.com/repos/ollama/ollama/contents/docs" then
         Some (demoResponse (Some (JS.VArr (map JS.VObj demoDescriptors))) "")
       else if JS.startsWith url "https://api.github.com/repos/ollama/ollama/contents/docs/api.md" then
         Some (demoResponse (Some demoMetadata) "")
       else if String.eqb url "https://raw.githubusercontent.com/ollama/ollama/main/docs/api.md" then
         Some (demoResponse None "See [Intro](./intro.md#setup).")
       else if String.eqb url "https://raw.githubusercontent.com/ollama/ollama/main/docs/api-v2.md" then
         Some (demoResponse None "See [Back](../index.md).")
       else None;
     parseData := fun _ data =>
       match docsSchema data with
       | Some d => JS.Return d
       | None => JS.Throw (JS.Error "InvalidContentEntryDataError")
       end;
     schedule := fun entries => entries;
     schedule_runs_all := fun entries => Permutation_refl entries |}.

(** The reference of the document of the listing, a second reference to
    the same document, and a reference whose metadata address is no
    address. *)
Definition demoEntry : DiscoveredRef :=
  {| selfUrl := JS.VStr "https://api.github.com/repos/ollama/ollama/contents/docs/api.md?ref=main";
     downloadUrl := JS.VStr "https://raw.githubusercontent.com/ollama/ollama/main/docs/api.md" |}.

Definition demoEntry2 : DiscoveredRef :=
  {| selfUrl := JS.VStr "https://api.github.com/repos/ollama/ollama/contents/docs/api.md";
     downloadUrl := JS.VStr "https://raw.githubusercontent.com/ollama/ollama/main/docs/api-v2.md" |}.


(** ** Notions used to state the properties *)

(** [c] occurs in [s]. *)
Fixpoint occurs (c : ascii) (s : string) : bool :=
  match s with
  | EmptyString => false
  | String x s' => Ascii.eqb x c || occurs c s'
  end.

(** The longest prefix of [s] without [c], and what follows it. *)
Fixpoint span (c : ascii) (s : string) : string * string :=
  match s with
  | EmptyString => (EmptyString, EmptyString)
  | String x s' =>
      if Ascii.eqb x c then (EmptyString, s)
      else let (p, r) := span c s' in (String x p, r)
  end.

(** The link pattern read as a scanner without backtracking: [[], a
    non-empty text up to the first []], [(] right behind it, a non-empty
    address up to the first [)].  The result is the text, the address and
    what follows the link. *)
Definition scanLink (s : string) : option (string * string * string) :=
  match s with
  | EmptyString => None
  | String b s1 =>
      if Ascii.eqb b "[" then
        match span "]" s1 with
        | (String t text, String _ (String p s2)) =>
            if Ascii.eqb p "(" then
              match span ")" s2 with
              | (String u url, String _ rest) => Some (String t text, String u url, rest)
              | _ => None
              end
            else None
        | _ => None
        end
      else None
  end.

(** The second half of the scanner: [(], a non-empty address up to the
    first [)]. *)
Definition scanUrl (s : string) : option (string * string) :=
  match s with
  | EmptyString => None
  | String p s2 =>
      if Ascii.eqb p "(" then
        match span ")" s2 with
        | (String u url, String _ rest) => Some (String u url, rest)
        | _ => None
        end
      else None
  end.

(** The source text of an inline link. *)
Definition link (text url : string) : string :=
  "[" +:+ text +:+ "](" +:+ url +:+ ")".

(** The address of a link is relative: it starts with [./] or [../]. *)
Definition relative (url : string) : bool :=
  JS.startsWith url "./" || JS.startsWith url "../".

(** The inline links of a text, as the scan of the rewriter finds them:
    the text and the address of each. *)
Definition inlineLinks (s : string) : list (string * string) :=
  map (fun m => (nth 0 (snd m) EmptyString, nth 1 (snd m) EmptyString))
    (JS.matchAll linkRegex s).

(** Dropping the prefix [p] from [s] where [s] starts with it. *)
Definition strip (p s : string) : string :=
  if JS.startsWith s p then JS.substring (String.length p) s else s.

(** The source text of an image: an inline link behind [!]. *)
Definition image (text url : string) : string := "!" +:+ link text url.

(** The address the specification describes for a relative address: cut at
    the first [#] into a path and, where there is a [#], the fragment behind
    it; drop a leading [./] from the path, otherwise a leading [../]; put
    [/docs/] in front and [#] with the fragment behind. *)
Definition spec_cleanPath (path : string) : string :=
  if JS.startsWith path "./" then JS.substring 2 path
  else if JS.startsWith path "../" then JS.substring 3 path
  else path.

Definition spec_rewriteUrl (url : string) : string :=
  let (path, behind) := span "#" url in
  "/docs/" +:+ spec_cleanPath path
  +:+ match behind with
      | String _ fragment => "#" +:+ fragment
      | EmptyString => EmptyString
      end.

(** The address the callback builds for a relative address. *)
Definition rewrittenUrl (url : string) : string :=
  "/docs/" +:+ strip "../" (strip "./" (nth 0 (JS.split "#" url) EmptyString))
  +:+ match nth_error (JS.split "#" url) 1 with
      | Some (String c f) => "#" +:+ String c f
      | Some EmptyString | None => EmptyString
      end.

(** *** Entry Discovery *)

(** A field of a descriptor is present: it has a value other than [null]. *)
Definition present (v : JS.value) : bool :=
  match v with
  | JS.VUndefined | JS.VNull => false
  | _ => true
  end.

(** The filter as the specification words it, on the fields of a
    descriptor object. *)
Definition spec_survives (fields : list (string * JS.value)) : bool :=
  present (JS.lookup "url" fields)
  && present (JS.lookup "download_url" fields)
  && match JS.lookup "download_url" fields with
     | JS.VStr d => JS.endsWith d ".md" && negb (JS.includes d "README.md")
     | _ => false
     end.

(** The filter of the code on the fields of a descriptor object, where it
    does not throw. *)
Definition survives (fields : list (string * JS.value)) : bool :=
  JS.truthy (JS.lookup "url" fields)
  && match JS.lookup "download_url" fields with
     | JS.VStr d => JS.endsWith d ".md" && negb (JS.includes d "README.md")
     | _ => false
     end.

(** The reference made from a descriptor object. *)
Definition refOf (fields : list (string * JS.value)) : DiscoveredRef :=
  {| selfUrl := JS.lookup "url" fields;
     downloadUrl := JS.lookup "download_url" fields |}.

(** The download address of a descriptor is a string, [null] or missing. *)
Definition download_typed (fields : list (string * JS.value)) : Prop :=
  match JS.lookup "download_url" fields with
  | JS.VStr _ | JS.VNull | JS.VUndefined => True
  | _ => False
  end.

(** The address of the directory listing. *)
Definition listingUrl (options : Options) : JS.value :=
  JS.VStr ("https://api.github.com/repos/" +:+ repo options
           +:+ "/contents/" +:+ path options).

Definition is_array (v : JS.value) : bool :=
  match v with
  | JS.VArr _ => true
  | _ => false
  end.

(** *** Entry Fetcher and store *)

Definition emptyWorld : World := {| store := ∅; requests := [] |}.

(** What [parseEntry] returns for an entry and which requests it sends;
    neither depends on the world it starts in. *)
Definition outcome (P : Platform) (entry : DiscoveredRef) : JS.completion (option Doc.record) :=
  fst (parseEntry P entry emptyWorld).

Definition requested (P : Platform) (entry : DiscoveredRef) : list (string * Headers) :=
  requests (snd (parseEntry P entry emptyWorld)).

(** The records the tasks of the entries write, in the order of the tasks. *)
Fixpoint written (P : Platform) (order : list DiscoveredRef) : list Doc.record :=
  match order with
  | [] => []
  | entry :: order' =>
      match outcome P entry with
      | JS.Return (Some data) => data :: written P order'
      | _ => written P order'
      end
  end.

(** Every record of the store lies under its [url]. *)
Definition keyed (st : gmap string Doc.record) : Prop :=
  forall k d, st !! k = Some d -> Doc.url d = k.

(** The records of the store whose [url] is [u], with their keys. *)
Definition stored_with_url (u : string) (st : gmap string Doc.record)
  : gmap string Doc.record :=
  filter (fun kv : string * Doc.record => Doc.url (snd kv) = u) st.

(** Putting records into a store one after the other, each under its [url]. *)
Definition write_all (st : gmap string Doc.record) (ds : list Doc.record)
  : gmap string Doc.record :=
  foldl (fun st d => <[Doc.url d := d]> st) st ds.

(** A platform whose listing request is answered by the error object
    [{"message":"Not Found"}]. *)
Definition notFoundPlatform (status_ok : bool) : Platform :=
  {| new_URL := new_URL demoPlatform;
     http := fun _ _ =>
       Some {| ok := status_ok;
               json_body := Some (JS.VObj [("message", JS.VStr "Not Found")]);
               text_body := "Not Found" |};
     parseData := parseData demoPlatform;
     schedule := schedule demoPlatform;
     schedule_runs_all := schedule_runs_all demoPlatform |}.

(** A descriptor whose metadata address is there and empty. *)
Definition emptyUrlDescriptor : list (string * JS.value) :=
  [("name", JS.VStr "api.md");
   ("url", JS.VStr "");
   ("download_url", JS.VStr "https://raw.githubusercontent.com/ollama/ollama/main/docs/api.md")].

(** The record made from [demoMetadata] and a content. *)
Definition demoRecord (content : string) : Doc.record :=
  {| Doc.name := "api.md";
     Doc.path := "docs/api.md";
     Doc.sha := "0a1b2c";
     Doc.size := 64;
     Doc.url := "https://api.github.com/repos/ollama/ollama/contents/docs/api.md?ref=main";
     Doc.html_url := "https://github.com/ollama/ollama/blob/main/docs/api.md";
     Doc.git_url := "https://api.github.com/repos/ollama/ollama/git/blobs/0a1b2c";
     Doc.download_url := "https://raw.githubusercontent.com/ollama/ollama/main/docs/api.md";
     Doc.type_ := "file";
     Doc.content := content;
     Doc.encoding := "base64";
     Doc.links_ :=
       {| Doc.self := "https://api.github.com/repos/ollama/ollama/contents/docs/api.md?ref=main";
          Doc.git := "https://api.github.com/repos/ollama/ollama/git/blobs/0a1b2c";
          Doc.html := "https://github.com/ollama/ollama/blob/main/docs/api.md" |} |}.

(** *** Further notions *)

(** What the rewriter makes of the address of a link. *)
Definition rewriteAddress (url : string) : string :=
  if relative url then rewrittenUrl url else url.

(** An element of a listing on which discovery throws: [null], or an
    object with a truthy [url] whose [download_url] is truthy and no
    string. *)
Definition unusable (v : JS.value) : Prop :=
  v = JS.VNull \/ v = JS.VUndefined
  \/ exists fields,
       v = JS.VObj fields
       /\ JS.truthy (JS.lookup "url" fields) = true
       /\ JS.truthy (JS.lookup "download_url" fields) = true
       /\ forall d, JS.lookup "download_url" fields <> JS.VStr d.

(** The references discovery returns, or what it throws; the world it
    starts in does not matter. *)
Definition discovered (P : Platform) (options : Options) : JS.completion (list DiscoveredRef) :=
  fst (fetchDocsEntries P options emptyWorld).

(** The first error among the tasks of the entries, in their order. *)
Fixpoint firstError (P : Platform) (order : list DiscoveredRef) : JS.completion unit :=
  match order with
  | [] => JS.Return tt
  | entry :: order' =>
      match outcome P entry with
      | JS.Throw e => JS.Throw e
      | JS.Return _ => firstError P order'
      end
  end.

(** The records a run writes, in the order of the writes. *)
Definition runWrites (P : Platform) (options : Options) : list Doc.record :=
  match discovered P options with
  | JS.Return entries => written P (schedule P entries)
  | JS.Throw _ => []
  end.

(** [demoPlatform] with another status of the metadata responses and
    another body of the first document. *)
Definition variantPlatform (metadata_ok : bool) (body : string) : Platform :=
  {| new_URL := new_URL demoPlatform;
     http := fun url headers =>
       if JS.startsWith url "https://api.github.com/repos/ollama/ollama/contents/docs/api.md" then
         Some {| ok := metadata_ok; json_body := Some demoMetadata; text_body := "" |}
       else if String.eqb url "https://raw.githubusercontent.com/ollama/ollama/main/docs/api.md" then
         Some (demoResponse None body)
       else http demoPlatform url headers;
     parseData := parseData demoPlatform;
     schedule := schedule demoPlatform;
     schedule_runs_all := schedule_runs_all demoPlatform |}.


(** Unfolding the steps of a computation. *)
Ltac run_monad :=
  unfold bind, fetch, res_json, throw, ret, lift, store_set; simpl.

(** ** Facts about strings *)

#[local] Arguments String.append : simpl nomatch.

Lemma append_empty_r (s : string) : s +:+ "" = s.
Proof. induction s as [|c s IH]; simpl; [reflexivity | now rewrite IH]. Qed.

Lemma append_assoc (s t u : string) : (s +:+ t) +:+ u = s +:+ (t +:+ u).
Proof. induction s as [|c s IH]; simpl; [reflexivity | now rewrite IH]. Qed.

Lemma length_append (s t : string) :
  String.length (s +:+ t) = String.length s + String.length t.
Proof. induction s as [|c s IH]; simpl; [reflexivity | now rewrite IH]. Qed.

Lemma take_append (p r : string) : JS.take (String.length p) (p +:+ r) = p.
Proof. induction p as [|c p IH]; simpl; [now destruct r | now rewrite IH]. Qed.

Lemma consumed_append (p r : string) : JS.consumed (p +:+ r) r = p.
Proof.
  unfold JS.consumed. rewrite length_append.
  replace (String.length p + String.length r - String.length r) with (String.length p) by lia.
  apply take_append.
Qed.

Lemma occurs_append (c : ascii) (s t : string) :
  occurs c (s +:+ t) = occurs c s || occurs c t.
Proof.
  induction s as [|x s IH]; simpl; [reflexivity|].
  rewrite IH. now rewrite orb_assoc.
Qed.

(** [span] cuts at the first occurrence of the character. *)
Lemma span_append (c : ascii) (s : string) :
  fst (span c s) +:+ snd (span c s) = s.
Proof.
  induction s as [|x s IH]; simpl; [reflexivity|].
  destruct (Ascii.eqb x c); simpl; [reflexivity|].
  destruct (span c s) as [p r]. simpl in *. now rewrite IH.
Qed.

Lemma span_prefix_clean (c : ascii) (s : string) : occurs c (fst (span c s)) = false.
Proof.
  induction s as [|x s IH]; simpl; [reflexivity|].
  destruct (Ascii.eqb x c) eqn:E; simpl; [reflexivity|].
  destruct (span c s) as [p r]. simpl in *. now rewrite E.
Qed.

Lemma span_rest (c : ascii) (s : string) :
  snd (span c s) = EmptyString \/ exists r, snd (span c s) = String c r.
Proof.
  induction s as [|x s IH]; simpl; [now left|].
  destruct (Ascii.eqb_spec x c) as [->|Hne]; simpl; [right; eauto|].
  destruct (span c s) as [p r]. exact IH.
Qed.

Lemma span_clean (c : ascii) (p r : string) :
  occurs c p = false -> span c (p +:+ String c r) = (p, String c r).
Proof.
  induction p as [|x p IH]; simpl; intros H.
  - now rewrite Ascii.eqb_refl.
  - apply orb_false_iff in H as [Hx Hp]. rewrite Hx, (IH Hp). reflexivity.
Qed.

Lemma span_absent (c : ascii) (s : string) :
  occurs c s = false -> span c s = (s, EmptyString).
Proof.
  induction s as [|x s IH]; simpl; intros H; [reflexivity|].
  apply orb_false_iff in H as [Hx Hs]. rewrite Hx, (IH Hs). reflexivity.
Qed.

(** ** The link pattern matches without backtracking *)

(** Behind a greedy run of characters other than [c], a continuation that
    needs [c] next can only succeed at the end of the longest run. *)
Lemma plus_span {R : Type} (c : ascii) (s : string) (k : string -> option R) :
  k EmptyString = None ->
  (forall x r, x <> c -> k (String x r) = None) ->
  JS.plus (JS.IsNot c) s k =
  match span c s with
  | (String _ _, r) => k r
  | (EmptyString, _) => None
  end.
Proof.
  intros Hnil Hother. induction s as [|x s IH]; simpl; [reflexivity|].
  destruct (Ascii.eqb_spec x c) as [->|Hne]; simpl; [reflexivity|].
  rewrite IH. pose proof (span_append c s) as Happ.
  pose proof (span_prefix_clean c s) as Hclean.
  destruct (span c s) as [[|y p] r]; simpl in *.
  - now subst r.
  - destruct (k r) eqn:Hk; [reflexivity|].
    subst s. apply Hother. intros ->.
    now rewrite Ascii.eqb_refl in Hclean.
Qed.

Lemma span_consumed (c : ascii) (s : string) :
  JS.consumed s (snd (span c s)) = fst (span c s).
Proof. rewrite <- (span_append c s) at 1. apply consumed_append. Qed.

(** One attempt of the pattern is one run of the scanner. *)
Lemma exec_linkRegex (s : string) :
  JS.exec linkRegex s =
  match scanLink s with
  | Some (text, url, rest) => Some ([text; url], rest)
  | None => None
  end.
Proof.
  destruct s as [|b s1]; [reflexivity|].
  unfold JS.exec, linkRegex, scanLink. simpl JS.rmatch. simpl JS.accepts.
  destruct (Ascii.eqb b "["); [|reflexivity].
  rewrite plus_span; [|reflexivity|].
  2:{ intros x r Hx. apply Ascii.eqb_neq in Hx. now rewrite Hx. }
  pose proof (span_consumed "]" s1) as Hc1.
  pose proof (span_rest "]" s1) as Hr1.
  destruct (span "]" s1) as [[|t text] r1]; [reflexivity|]. simpl in Hc1, Hr1.
  destruct Hr1 as [->|[r ->]]; [reflexivity|]. rewrite Ascii.eqb_refl.
  destruct r as [|p s2]; [reflexivity|].
  destruct (Ascii.eqb p "("); [|reflexivity].
  rewrite plus_span; [|reflexivity|].
  2:{ intros x r Hx. apply Ascii.eqb_neq in Hx. now rewrite Hx. }
  pose proof (span_consumed ")" s2) as Hc2.
  pose proof (span_rest ")" s2) as Hr2.
  destruct (span ")" s2) as [[|u url] r2]; [reflexivity|]. simpl in Hc2, Hr2.
  destruct Hr2 as [->|[r ->]]; [reflexivity|]. rewrite Ascii.eqb_refl.
  now rewrite Hc1, Hc2.
Qed.

Lemma link_append (text url rest : string) :
  link text url +:+ rest
  = String "[" (text +:+ String "]" (String "(" (url +:+ String ")" rest))).
Proof. unfold link. simpl. rewrite append_assoc. simpl. now rewrite append_assoc. Qed.

Lemma scanLink_Some (s text url rest : string) :
  scanLink s = Some (text, url, rest) ->
  s = link text url +:+ rest
  /\ text <> EmptyString /\ occurs "]" text = false
  /\ url <> EmptyString /\ occurs ")" url = false.
Proof.
  unfold scanLink. destruct s as [|b s1]; [discriminate|].
  destruct (Ascii.eqb_spec b "[") as [->|]; [|discriminate].
  pose proof (span_append "]" s1) as Ha1.
  pose proof (span_prefix_clean "]" s1) as Hp1.
  pose proof (span_rest "]" s1) as Hr1.
  destruct (span "]" s1) as [[|t tx] r1]; [discriminate|]. simpl in Ha1, Hp1, Hr1.
  destruct Hr1 as [->|[r ->]]; [discriminate|].
  destruct r as [|p s2]; [discriminate|].
  destruct (Ascii.eqb_spec p "(") as [->|]; [|discriminate].
  pose proof (span_append ")" s2) as Ha2.
  pose proof (span_prefix_clean ")" s2) as Hp2.
  pose proof (span_rest ")" s2) as Hr2.
  destruct (span ")" s2) as [[|u ur] r2]; [discriminate|]. simpl in Ha2, Hp2, Hr2.
  destruct Hr2 as [->|[r ->]]; [discriminate|].
  intros [= <- <- <-]. subst s1 s2. rewrite link_append. repeat split; easy.
Qed.

Lemma scanLink_link (text url rest : string) :
  text <> EmptyString -> occurs "]" text = false ->
  url <> EmptyString -> occurs ")" url = false ->
  scanLink (link text url +:+ rest) = Some (text, url, rest).
Proof.
  intros Ht Hto Hu Huo. rewrite link_append. unfold scanLink. simpl.
  rewrite (span_clean "]" text _ Hto).
  destruct text as [|t tx]; [easy|]. simpl.
  rewrite (span_clean ")" url _ Huo).
  destruct url as [|u ur]; [easy|]. reflexivity.
Qed.

Lemma scanLink_other (c : ascii) (s : string) :
  c <> "["%char -> scanLink (String c s) = None.
Proof. intros H. simpl. apply Ascii.eqb_neq in H. now rewrite H. Qed.

(** A match of the link pattern is never empty. *)
Lemma scanLink_shorter (s text url rest : string) :
  scanLink s = Some (text, url, rest) -> String.length rest < String.length s.
Proof.
  intros H. apply scanLink_Some in H as (-> & _). rewrite link_append.
  simpl. rewrite !length_append. simpl. rewrite length_append. simpl. lia.
Qed.

(** ** The scan does not depend on its fuel *)

Lemma replace_from_fuel (r : JS.regex) (f : string -> list string -> string)
  (n m : nat) (s : string) :
  String.length s < n -> String.length s < m ->
  JS.replace_from n r f s = JS.replace_from m r f s.
Proof.
  revert m s. induction n as [|n IH]; intros m s Hn Hm; [lia|].
  destruct m as [|m]; [lia|]. simpl.
  destruct (JS.exec r s) as [[caps rest]|].
  - destruct (Nat.ltb_spec (String.length rest) (String.length s)).
    + f_equal. apply IH; lia.
    + f_equal. destruct s as [|c s']; [reflexivity|]. f_equal.
      apply IH; simpl in *; lia.
  - destruct s as [|c s']; [reflexivity|]. f_equal. apply IH; simpl in *; lia.
Qed.

Lemma matchAll_from_fuel (r : JS.regex) (n m : nat) (s : string) :
  String.length s < n -> String.length s < m ->
  JS.matchAll_from n r s = JS.matchAll_from m r s.
Proof.
  revert m s. induction n as [|n IH]; intros m s Hn Hm; [lia|].
  destruct m as [|m]; [lia|]. simpl.
  destruct (JS.exec r s) as [[caps rest]|].
  - destruct (Nat.ltb_spec (String.length rest) (String.length s)).
    + f_equal. apply IH; lia.
    + f_equal. destruct s as [|c s']; [reflexivity|].
      apply IH; simpl in *; lia.
  - destruct s as [|c s']; [reflexivity|]. apply IH; simpl in *; lia.
Qed.

(** ** The equations of the rewriter *)

Lemma replace_step (r : JS.regex) (f : string -> list string -> string) (s : string) :
  JS.replace r f s =
  match JS.exec r s with
  | Some (caps, rest) =>
      if (String.length rest <? String.length s)%nat then
        f (JS.consumed s rest) caps +:+ JS.replace r f rest
      else
        f EmptyString caps
        +:+ match s with
            | EmptyString => EmptyString
            | String c s' => String c (JS.replace r f s')
            end
  | None =>
      match s with
      | EmptyString => EmptyString
      | String c s' => String c (JS.replace r f s')
      end
  end.
Proof.
  unfold JS.replace at 1. cbn [JS.replace_from].
  destruct (JS.exec r s) as [[caps rest]|].
  - destruct (Nat.ltb_spec (String.length rest) (String.length s)).
    + f_equal. apply replace_from_fuel; lia.
    + f_equal. now destruct s.
  - now destruct s.
Qed.

Lemma matchAll_step (r : JS.regex) (s : string) :
  JS.matchAll r s =
  match JS.exec r s with
  | Some (caps, rest) =>
      if (String.length rest <? String.length s)%nat then
        (JS.consumed s rest, caps) :: JS.matchAll r rest
      else
        (EmptyString, caps)
        :: match s with
           | EmptyString => []
           | String _ s' => JS.matchAll r s'
           end
  | None =>
      match s with
      | EmptyString => []
      | String _ s' => JS.matchAll r s'
      end
  end.
Proof.
  unfold JS.matchAll at 1. cbn [JS.matchAll_from].
  destruct (JS.exec r s) as [[caps rest]|].
  - destruct (Nat.ltb_spec (String.length rest) (String.length s)).
    + f_equal. apply matchAll_from_fuel; lia.
    + f_equal. now destruct s.
  - now destruct s.
Qed.

Lemma transform_step (s : string) :
  transformMarkdownLinks s =
  match scanLink s with
  | Some (text, url, rest) =>
      replacer (link text url) text url +:+ transformMarkdownLinks rest
  | None =>
      match s with
      | EmptyString => EmptyString
      | String c s' => String c (transformMarkdownLinks s')
      end
  end.
Proof.
  unfold transformMarkdownLinks. rewrite replace_step at 1.
  rewrite exec_linkRegex. destruct (scanLink s) as [[[text url] rest]|] eqn:E.
  - pose proof (scanLink_shorter _ _ _ _ E) as Hlt.
    apply scanLink_Some in E as (Hs & _).
    destruct (Nat.ltb_spec (String.length rest) (String.length s)); [|lia].
    rewrite Hs at 1. now rewrite consumed_append.
  - reflexivity.
Qed.

Lemma inlineLinks_step (s : string) :
  inlineLinks s =
  match scanLink s with
  | Some (text, url, rest) => (text, url) :: inlineLinks rest
  | None =>
      match s with
      | EmptyString => []
      | String _ s' => inlineLinks s'
      end
  end.
Proof.
  unfold inlineLinks. rewrite matchAll_step at 1.
  rewrite exec_linkRegex. destruct (scanLink s) as [[[text url] rest]|] eqn:E.
  - pose proof (scanLink_shorter _ _ _ _ E) as Hlt.
    destruct (Nat.ltb_spec (String.length rest) (String.length s)); [|lia].
    reflexivity.
  - now destruct s.
Qed.

(** Induction along the scan: over a character that starts no link, or
    over a whole link. *)
Lemma scan_ind (P : string -> Prop) :
  P EmptyString ->
  (forall c s, scanLink (String c s) = None -> P s -> P (String c s)) ->
  (forall s text url rest, scanLink s = Some (text, url, rest) -> P rest -> P s) ->
  forall s, P s.
Proof.
  intros Hnil Hchar Hlink s.
  remember (String.length s) as n eqn:Hn. revert s Hn.
  induction n as [n IH] using lt_wf_ind. intros s ->.
  destruct (scanLink s) as [[[text url] rest]|] eqn:E.
  - apply (Hlink _ _ _ _ E). apply (IH (String.length rest)); [|reflexivity].
    now apply scanLink_shorter in E.
  - destruct s as [|c s']; [exact Hnil|].
    apply (Hchar _ _ E). apply (IH (String.length s')); [simpl; lia | reflexivity].
Qed.

(** ** The rewriter on one link *)

(** Text without [[] is copied. *)
Lemma transform_plain (pre s : string) :
  occurs "[" pre = false ->
  transformMarkdownLinks (pre +:+ s) = pre +:+ transformMarkdownLinks s.
Proof.
  induction pre as [|c pre IH]; simpl; intros H; [reflexivity|].
  apply orb_false_iff in H as [Hc Hpre]. apply Ascii.eqb_neq in Hc.
  rewrite transform_step, (scanLink_other _ _ Hc). now rewrite (IH Hpre).
Qed.

(** A link is handed to the callback, and the scan goes on behind it. *)
Lemma transform_link (text url post : string) :
  text <> EmptyString -> occurs "]" text = false ->
  url <> EmptyString -> occurs ")" url = false ->
  transformMarkdownLinks (link text url +:+ post)
  = replacer (link text url) text url +:+ transformMarkdownLinks post.
Proof.
  intros Ht Hto Hu Huo. rewrite transform_step.
  now rewrite (scanLink_link text url post Ht Hto Hu Huo).
Qed.

Lemma transform_link_in_context (pre text url post : string) :
  occurs "[" pre = false ->
  text <> EmptyString -> occurs "]" text = false ->
  url <> EmptyString -> occurs ")" url = false ->
  transformMarkdownLinks (pre +:+ link text url +:+ post)
  = pre +:+ replacer (link text url) text url +:+ transformMarkdownLinks post.
Proof.
  intros Hpre Ht Hto Hu Huo. rewrite (transform_plain _ _ Hpre).
  now rewrite transform_link.
Qed.

(** [split] on a string without the separator, and at the first separator. *)
Lemma split_absent (c : ascii) (s : string) :
  occurs c s = false -> JS.split c s = [s].
Proof.
  induction s as [|x s IH]; simpl; intros H; [reflexivity|].
  apply orb_false_iff in H as [Hx Hs]. now rewrite Hx, (IH Hs).
Qed.

Lemma split_first (c : ascii) (p s : string) :
  occurs c p = false -> JS.split c (p +:+ String c s) = p :: JS.split c s.
Proof.
  induction p as [|x p IH]; simpl; intros H.
  - now rewrite Ascii.eqb_refl.
  - apply orb_false_iff in H as [Hx Hp]. now rewrite Hx, (IH Hp).
Qed.

(** What the callback does with a relative address cut at its only [#]. *)
Lemma replacer_relative (m text path : string) (fragment : option string) :
  let url := path +:+ match fragment with
                      | Some f => "#" +:+ f
                      | None => EmptyString
                      end in
  relative url = true ->
  occurs "#" path = false ->
  (forall f, fragment = Some f -> occurs "#" f = false) ->
  replacer m text url
  = link text ("/docs/" +:+ strip "../" (strip "./" path)
               +:+ match fragment with
                   | Some (String c f) => "#" +:+ String c f
                   | Some EmptyString | None => EmptyString
                   end).
Proof.
  intros url Hrel Hpath Hfrag. unfold replacer. fold (relative url). rewrite Hrel.
  unfold url. destruct fragment as [f|].
  - simpl. rewrite (split_first "#" path f Hpath).
    rewrite (split_absent "#" f (Hfrag f eq_refl)). reflexivity.
  - rewrite append_empty_r, (split_absent "#" path Hpath). reflexivity.
Qed.

Lemma replacer_cases (m text url : string) :
  replacer m text url = if relative url then link text (rewrittenUrl url) else m.
Proof. reflexivity. Qed.

Lemma relative_starts_with_dot (url : string) :
  relative url = true -> exists u, url = String "." u.
Proof.
  unfold relative, JS.startsWith. destruct url as [|c u]; [easy|].
  cbn [String.prefix]. destruct (ascii_dec "." c) as [<-|]; [eauto | easy].
Qed.

Lemma rewrittenUrl_differs (url : string) :
  relative url = true -> rewrittenUrl url <> url.
Proof. intros [u ->]%relative_starts_with_dot. discriminate. Qed.

Lemma occurs_substring (c : ascii) (n : nat) (s : string) :
  occurs c s = false -> occurs c (JS.substring n s) = false.
Proof.
  revert s. induction n as [|n IH]; intros [|x s]; simpl; try easy.
  intros [_ H]%orb_false_iff. now apply IH.
Qed.

Lemma occurs_strip (c : ascii) (p s : string) :
  occurs c s = false -> occurs c (strip p s) = false.
Proof.
  intros H. unfold strip. destruct (JS.startsWith s p); [|exact H].
  now apply occurs_substring.
Qed.

(** Where no link is relative, the rewriter copies its input. *)
Lemma transform_fixed (s : string) :
  (forall text url, In (text, url) (inlineLinks s) -> relative url = false) ->
  transformMarkdownLinks s = s.
Proof.
  induction s as [|c s Hnone IH|s text url rest Hscan IH] using scan_ind; intros Hall.
  - reflexivity.
  - rewrite transform_step, Hnone. f_equal. apply IH.
    intros text url Hin. apply (Hall text url).
    now rewrite inlineLinks_step, Hnone.
  - rewrite inlineLinks_step, Hscan in Hall.
    rewrite transform_step, Hscan, replacer_cases.
    rewrite (Hall text url) by now left.
    rewrite IH by (intros t u Hin; apply (Hall t u); now right).
    now apply scanLink_Some in Hscan as (-> & _).
Qed.

(** A relative link between a text without [[] and any text. *)
Lemma relative_link_in_context (pre text path post : string) (fragment : option string) :
  let url := path +:+ match fragment with
                      | Some f => "#" +:+ f
                      | None => EmptyString
                      end in
  relative url = true ->
  occurs "#" path = false ->
  (forall f, fragment = Some f -> occurs "#" f = false) ->
  occurs "[" pre = false ->
  text <> EmptyString -> occurs "]" text = false -> occurs ")" url = false ->
  transformMarkdownLinks (pre +:+ link text url +:+ post)
  = pre +:+ link text ("/docs/" +:+ strip "../" (strip "./" path)
                       +:+ match fragment with
                           | Some (String c f) => "#" +:+ String c f
                           | Some EmptyString | None => EmptyString
                           end)
    +:+ transformMarkdownLinks post.
Proof.
  intros url Hrel Hpath Hfrag Hpre Ht Hto Huo.
  rewrite transform_link_in_context; try assumption.
  - now rewrite (replacer_relative _ text path fragment Hrel Hpath Hfrag).
  - intros E. now rewrite E in Hrel.
Qed.

(** ** The rewriter is idempotent *)

Lemma scanLink_bracket (s : string) :
  scanLink (String "[" s) =
  match span "]" s with
  | (String t text, String _ r) =>
      match scanUrl r with
      | Some (url, rest) => Some (String t text, url, rest)
      | None => None
      end
  | _ => None
  end.
Proof.
  unfold scanLink, scanUrl. rewrite Ascii.eqb_refl.
  destruct (span "]" s) as [[|t text] [|x [|p s2]]]; try reflexivity.
  destruct (Ascii.eqb p "("); [|reflexivity].
  now destruct (span ")" s2) as [[|u url] [|y rest]].
Qed.

Lemma occurs_link (text url rest : string) :
  occurs "]" (link text url +:+ rest) = true
  /\ occurs ")" (link text url +:+ rest) = true.
Proof.
  rewrite link_append. simpl. rewrite !occurs_append. simpl.
  rewrite !occurs_append. simpl. split; now rewrite ?orb_true_r.
Qed.

(** A text without []], or without [)], holds no link. *)
Lemma transform_no_closing (c : ascii) (s : string) :
  c = "]"%char \/ c = ")"%char -> occurs c s = false -> transformMarkdownLinks s = s.
Proof.
  intros Hc. induction s as [|x s IH]; intros Hs; [reflexivity|].
  rewrite transform_step. destruct (scanLink (String x s)) as [[[text url] rest]|] eqn:E.
  - apply scanLink_Some in E as (E & _). rewrite E in Hs.
    destruct (occurs_link text url rest) as [H1 H2].
    destruct Hc as [-> | ->]; congruence.
  - simpl in Hs. apply orb_false_iff in Hs as [_ Hs]. now rewrite (IH Hs).
Qed.

(** The rewriter keeps the first character of its input. *)
Lemma transform_head (c : ascii) (s : string) :
  exists s', transformMarkdownLinks (String c s) = String c s'.
Proof.
  rewrite transform_step. destruct (scanLink (String c s)) as [[[text url] rest]|] eqn:E.
  - apply scanLink_Some in E as (E & _). rewrite link_append in E.
    injection E as -> _. rewrite replacer_cases.
    destruct (relative url); unfold link; simpl; eauto.
  - eauto.
Qed.

Lemma scanUrl_transform (r : string) :
  scanUrl r = None -> scanUrl (transformMarkdownLinks r) = None.
Proof.
  destruct r as [|p s2]; [reflexivity|]. unfold scanUrl at 1.
  destruct (Ascii.eqb_spec p "(") as [->|Hp].
  - rewrite transform_step, scanLink_other by discriminate.
    pose proof (span_append ")" s2) as Happ.
    pose proof (span_prefix_clean ")" s2) as Hclean.
    pose proof (span_rest ")" s2) as Hrest.
    destruct (span ")" s2) as [u r2] eqn:Hspan. simpl in *.
    destruct Hrest as [->|[r3 ->]].
    + intros _. rewrite append_empty_r in Happ. subst u.
      now rewrite (transform_no_closing ")" s2 (or_intror eq_refl) Hclean), Hspan;
        destruct s2.
    + destruct u as [|u0 u]; [|discriminate]. intros _. simpl in Happ. subst s2.
      destruct (transform_head ")" r3) as [s' ->]. reflexivity.
  - intros _. destruct (transform_head p s2) as [s' ->]. simpl.
    apply Ascii.eqb_neq in Hp. now rewrite Hp.
Qed.

(** Behind a text without []] that no address follows, the scan finds
    its first link behind the []]. *)
Lemma transform_past_bracket (t r : string) :
  occurs "]" t = false -> scanUrl r = None ->
  transformMarkdownLinks (t +:+ String "]" r) = t +:+ String "]" (transformMarkdownLinks r).
Proof.
  intros Ht Hr. induction t as [|c t IH]; simpl.
  - now rewrite transform_step, scanLink_other by discriminate.
  - simpl in Ht. apply orb_false_iff in Ht as [_ Ht].
    rewrite transform_step.
    assert (Hnone : scanLink (String c (t +:+ String "]" r)) = None).
    { destruct (Ascii.eqb_spec c "[") as [->|Hc]; [|now apply scanLink_other].
      rewrite scanLink_bracket, (span_clean "]" t r Ht), Hr. now destruct t. }
    now rewrite Hnone, (IH Ht).
Qed.

(** Where no link starts at a character, none starts there in the output. *)
Lemma scanLink_transform (c : ascii) (s : string) :
  scanLink (String c s) = None ->
  scanLink (String c (transformMarkdownLinks s)) = None.
Proof.
  destruct (Ascii.eqb_spec c "[") as [->|Hc]; [|intros _; now apply scanLink_other].
  rewrite !scanLink_bracket.
  pose proof (span_append "]" s) as Happ.
  pose proof (span_prefix_clean "]" s) as Hclean.
  pose proof (span_rest "]" s) as Hrest.
  destruct (span "]" s) as [t r] eqn:Hspan. simpl in *.
  destruct Hrest as [->|[r' ->]].
  - intros _. rewrite append_empty_r in Happ. subst t.
    rewrite (transform_no_closing "]" s (or_introl eq_refl) Hclean), Hspan.
    now destruct s.
  - subst s. destruct t as [|t0 t].
    + intros _. change ("" +:+ String "]" r') with (String "]" r').
      destruct (transform_head "]" r') as [s' ->]. reflexivity.
    + destruct (scanUrl r') as [[url rest]|] eqn:Hu; [discriminate|]. intros _.
      rewrite (transform_past_bracket _ _ Hclean Hu).
      rewrite (span_clean "]" _ _ Hclean).
      now rewrite (scanUrl_transform _ Hu).
Qed.

Lemma occurs_rewrittenUrl (url : string) :
  occurs ")" url = false -> occurs ")" (rewrittenUrl url) = false.
Proof.
  intros Hu. unfold rewrittenUrl.
  pose proof (span_append "#" url) as Happ.
  pose proof (span_prefix_clean "#" url) as Hclean.
  pose proof (span_rest "#" url) as Hrest.
  destruct (span "#" url) as [p r]. simpl in *. subst url.
  rewrite occurs_append in Hu. apply orb_false_iff in Hu as [Hp Hr].
  destruct Hrest as [->|[r' ->]].
  - rewrite append_empty_r, (split_absent "#" p Hclean). simpl.
    rewrite append_empty_r. now do 2 apply occurs_strip.
  - rewrite (split_first "#" p r' Hclean). simpl in Hr.
    pose proof (span_append "#" r') as Happ'.
    pose proof (span_prefix_clean "#" r') as Hclean'.
    pose proof (span_rest "#" r') as Hrest'.
    destruct (span "#" r') as [f r2]. simpl in *. subst r'.
    rewrite occurs_append in Hr. apply orb_false_iff in Hr as [Hf _].
    assert (Hsplit : exists rest, JS.split "#" (f +:+ r2) = f :: rest).
    { destruct Hrest' as [->|[r3 ->]].
      - rewrite append_empty_r, (split_absent "#" f Hclean'). eauto.
      - rewrite (split_first "#" f r3 Hclean'). eauto. }
    destruct Hsplit as [rest ->]. simpl.
    rewrite !occurs_append. rewrite (occurs_strip ")" _ _ (occurs_strip ")" _ _ Hp)).
    destruct f; simpl in *; [reflexivity | exact Hf].
Qed.

(** X1: the rewriter is idempotent on every input: applied to its own
    output it changes nothing, whether or not the input holds relative
    links. *)
Lemma transform_idempotent (s : string) :
  transformMarkdownLinks (transformMarkdownLinks s) = transformMarkdownLinks s.
Proof.
  induction s as [|c s Hnone IH|s text url rest Hscan IH] using scan_ind.
  - reflexivity.
  - rewrite (transform_step (String c s)), Hnone.
    rewrite transform_step, (scanLink_transform c s Hnone). now rewrite IH.
  - rewrite (transform_step s), Hscan, replacer_cases.
    apply scanLink_Some in Hscan as (_ & Ht & Hto & Hu & Huo).
    destruct (relative url) eqn:Hrel.
    + rewrite transform_link; try assumption.
      * rewrite replacer_cases.
        assert (Hnew : relative (rewrittenUrl url) = false) by reflexivity.
        now rewrite Hnew, IH.
      * discriminate.
      * now apply occurs_rewrittenUrl.
    + rewrite transform_link by assumption.
      now rewrite replacer_cases, Hrel, IH.
Qed.

(** ** The properties of the Link Rewriter *)

(** C2: the rewriter maps [[Intro](./intro.md#setup)] to
    [[Intro](/docs/intro.md#setup)] and [[Back](../index.md)] to
    [[Back](/docs/index.md)], and leaves [[Ext](https://example.com/x)]
    as it is. *)
Theorem rewriter_examples :
  transformMarkdownLinks "[Intro](./intro.md#setup)" = "[Intro](/docs/intro.md#setup)"
  /\ transformMarkdownLinks "[Back](../index.md)" = "[Back](/docs/index.md)"
  /\ transformMarkdownLinks "[Ext](https://example.com/x)" = "[Ext](https://example.com/x)".
Proof. repeat split; vm_compute; reflexivity. Qed.

(** C3, as stated, fails: behind a stripped [./] the code strips a [../]
    as well, and of the text behind the first [#] it keeps what stands
    before the second [#] only. *)
Lemma spec_rewriteUrl_differs :
  transformMarkdownLinks "[a](./../x.md)" = "[a](/docs/x.md)"
  /\ link "a" (spec_rewriteUrl "./../x.md") = "[a](/docs/../x.md)"
  /\ transformMarkdownLinks "[a](./x.md#b#c)" = "[a](/docs/x.md#b)"
  /\ link "a" (spec_rewriteUrl "./x.md#b#c") = "[a](/docs/x.md#b#c)".
Proof. repeat split; vm_compute; reflexivity. Qed.

(** C3, amended: for an inline link whose address starts with [./] or [../]
    and holds at most one [#], the rewriter cuts the address at the [#] into
    a path and an optional fragment, strips a leading [./] from the path and
    then a leading [../] from what is left, and rebuilds the address as
    [/docs/] and the cleaned path, followed by [#] and the fragment where
    the fragment is not empty.  The text of the link is kept, and so is what
    stands before the link; the scan goes on behind it. *)
Theorem rewrite_relative_link (pre text path post : string) (fragment : option string) :
  let url := path +:+ match fragment with
                      | Some f => "#" +:+ f
                      | None => EmptyString
                      end in
  let newUrl := "/docs/" +:+ strip "../" (strip "./" path)
                +:+ match fragment with
                    | Some (String c f) => "#" +:+ String c f
                    | Some EmptyString | None => EmptyString
                    end in
  relative url = true ->
  occurs "#" path = false ->
  (forall f, fragment = Some f -> occurs "#" f = false) ->
  (forall m, replacer m text url = link text newUrl)
  /\ (occurs "[" pre = false ->
      text <> EmptyString -> occurs "]" text = false -> occurs ")" url = false ->
      transformMarkdownLinks (pre +:+ link text url +:+ post)
      = pre +:+ link text newUrl +:+ transformMarkdownLinks post).
Proof.
  intros url newUrl Hrel Hpath Hfrag. split.
  - intros m. now apply replacer_relative.
  - intros Hpre Ht Hto Huo. now apply relative_link_in_context.
Qed.

Lemma rewrite_relative_link_witness :
  transformMarkdownLinks ("See " +:+ link "Intro" "./../intro.md#setup" +:+ ".")
  = "See " +:+ link "Intro" "/docs/intro.md#setup" +:+ ".".
Proof.
  apply (rewrite_relative_link "See " "Intro" "./../intro.md" "." (Some "setup"));
    try reflexivity; try discriminate.
  intros f [= <-]. reflexivity.
Defined.

(** An image between a text without [[] and any text: the [!] is copied
    and the link behind it goes to the callback. *)
Lemma image_in_context (pre text url post : string) :
  occurs "[" pre = false ->
  text <> EmptyString -> occurs "]" text = false ->
  url <> EmptyString -> occurs ")" url = false ->
  transformMarkdownLinks (pre +:+ image text url +:+ post)
  = pre +:+ "!" +:+ replacer (link text url) text url +:+ transformMarkdownLinks post.
Proof.
  intros Hpre Ht Hto Hu Huo. unfold image.
  rewrite (append_assoc "!" (link text url) post).
  rewrite <- (append_assoc pre "!" (link text url +:+ post)).
  rewrite transform_link_in_context; try assumption.
  - now rewrite append_assoc.
  - rewrite occurs_append, Hpre. reflexivity.
Qed.

(** C4: the claim that images pass through the rewriter as they are does
    not hold of the code, although the code's comments say that only
    relative Markdown links are transformed.  The link pattern matches
    behind the [!]: [![logo](./images/logo.png)] becomes
    [![logo](/docs/images/logo.png)], and so does every image with a
    relative address, wherever it stands behind a text without [[]: its
    address is replaced by the [/docs/] address, which is another one. *)
Theorem image_rewritten :
  transformMarkdownLinks "![logo](./images/logo.png)" = "![logo](/docs/images/logo.png)"
  /\ transformMarkdownLinks "![logo](./images/logo.png)" <> "![logo](./images/logo.png)"
  /\ (forall pre text url post,
         occurs "[" pre = false ->
         text <> EmptyString -> occurs "]" text = false ->
         url <> EmptyString -> occurs ")" url = false ->
         relative url = true ->
         transformMarkdownLinks (pre +:+ image text url +:+ post)
         = pre +:+ image text (rewrittenUrl url) +:+ transformMarkdownLinks post
         /\ rewrittenUrl url <> url).
Proof.
  split; [vm_compute; reflexivity|]. split; [vm_compute; discriminate|].
  intros pre text url post Hpre Ht Hto Hu Huo Hrel.
  split; [|now apply rewrittenUrl_differs].
  rewrite image_in_context by assumption.
  rewrite replacer_cases, Hrel. unfold image. now rewrite append_assoc.
Qed.

(** C5: on a text whose inline links all have addresses that do not start
    with [./] or [../], the rewriter applied twice is the rewriter applied
    once; and the output of the rewriter is a function of its input. *)
Theorem rewriter_idempotent_on_untouched (s : string) :
  (forall text url, In (text, url) (inlineLinks s) -> relative url = false) ->
  transformMarkdownLinks (transformMarkdownLinks s) = transformMarkdownLinks s
  /\ (forall s', s' = s -> transformMarkdownLinks s' = transformMarkdownLinks s).
Proof.
  intros Hall. split; [|now intros s' ->].
  now rewrite !(transform_fixed s Hall).
Qed.

Lemma rewriter_idempotent_on_untouched_witness :
  transformMarkdownLinks
    (transformMarkdownLinks "See [Ext](https://example.com/x) and [Doc](/docs/intro.md).")
  = transformMarkdownLinks "See [Ext](https://example.com/x) and [Doc](/docs/intro.md).".
Proof.
  refine (proj1 (rewriter_idempotent_on_untouched
                   "See [Ext](https://example.com/x) and [Doc](/docs/intro.md)." _)).
  intros text url H. vm_compute in H.
  destruct H as [[= <- <-]|[[= <- <-]|[]]]; reflexivity.
Defined.

(** C10: where the address of an inline link starts with [./] or [../] and
    ends with a [#] that has no fragment behind it, the rewriter drops the
    [#]: [[A](./x.md#)] becomes [[A](/docs/x.md)], not [[A](/docs/x.md#)]. *)
Theorem trailing_hash_dropped (pre text path post : string) :
  relative (path +:+ "#") = true ->
  occurs "#" path = false ->
  (forall m, replacer m text (path +:+ "#")
             = link text ("/docs/" +:+ strip "../" (strip "./" path)))
  /\ occurs "#" ("/docs/" +:+ strip "../" (strip "./" path)) = false
  /\ (occurs "[" pre = false ->
      text <> EmptyString -> occurs "]" text = false -> occurs ")" path = false ->
      transformMarkdownLinks (pre +:+ link text (path +:+ "#") +:+ post)
      = pre +:+ link text ("/docs/" +:+ strip "../" (strip "./" path))
        +:+ transformMarkdownLinks post)
  /\ transformMarkdownLinks "[A](./x.md#)" = "[A](/docs/x.md)"
  /\ transformMarkdownLinks "[A](./x.md#)" <> "[A](/docs/x.md#)".
Proof.
  intros Hrel Hpath.
  assert (Hfrag : forall f, Some EmptyString = Some f -> occurs "#" f = false)
    by now intros f [= <-].
  pose proof (fun m => replacer_relative m text path (Some EmptyString) Hrel Hpath Hfrag)
    as Hcb.
  pose proof (relative_link_in_context pre text path post (Some EmptyString)
                Hrel Hpath Hfrag) as Hctx.
  simpl in Hcb, Hctx. rewrite append_empty_r in Hcb, Hctx.
  split; [exact Hcb|]. split.
  { rewrite occurs_append. simpl. now do 2 apply occurs_strip. }
  split.
  { intros Hpre Ht Hto Hpo. apply Hctx; try assumption.
    rewrite occurs_append, Hpo. reflexivity. }
  split; vm_compute; [reflexivity | discriminate].
Qed.

Lemma trailing_hash_dropped_witness :
  transformMarkdownLinks ("See " +:+ link "A" "./x.md#" +:+ ".")
  = "See " +:+ link "A" "/docs/x.md" +:+ ".".
Proof.
  refine (proj1 (proj2 (proj2 (trailing_hash_dropped "See " "A" "./x.md" "." eq_refl eq_refl)))
            eq_refl _ eq_refl eq_refl).
  discriminate.
Defined.

(** ** What [endsWith] and [includes] decide *)

Lemma take_substring (n : nat) (s : string) : JS.take n s +:+ JS.substring n s = s.
Proof.
  revert s. induction n as [|n IH]; intros [|c s]; simpl; try reflexivity.
  now rewrite IH.
Qed.

Lemma substring_append (p x : string) : JS.substring (String.length p) (p +:+ x) = x.
Proof. induction p as [|c p IH]; simpl; [now destruct x | exact IH]. Qed.

Lemma endsWith_spec (s x : string) :
  JS.endsWith s x = true <-> exists p, s = p +:+ x.
Proof.
  unfold JS.endsWith. rewrite andb_true_iff, Nat.leb_le, String.eqb_eq. split.
  - intros [_ H]. exists (JS.take (String.length s - String.length x) s).
    pose proof (take_substring (String.length s - String.length x) s) as E.
    rewrite H in E. now symmetry.
  - intros [p ->]. rewrite length_append. split; [lia|].
    replace (String.length p + String.length x - String.length x)
      with (String.length p) by lia.
    apply substring_append.
Qed.

Lemma prefix_spec (x s : string) :
  String.prefix x s = true <-> exists q, s = x +:+ q.
Proof.
  revert s. induction x as [|c x IH]; intros s.
  - split; [intros _; now exists s | now destruct s].
  - destruct s as [|d s]; cbn [String.prefix].
    + split; [easy | now intros [q [=]]].
    + destruct (ascii_dec c d) as [<-|Hne].
      * rewrite IH. split; intros [q H]; exists q; simpl in *; congruence.
      * split; [easy|]. intros [q H]. simpl in H. congruence.
Qed.

Lemma includes_spec (s x : string) :
  JS.includes s x = true <-> exists p q, s = p +:+ x +:+ q.
Proof.
  induction s as [|c s IH]; cbn [JS.includes]; rewrite orb_true_iff, prefix_spec.
  - split.
    + intros [[q H]|]; [|easy]. now exists EmptyString, q.
    + intros ([|? p] & q & H); [left; now exists q | easy].
  - rewrite IH. split.
    + intros [[q H]|(p & q & ->)]; [now exists EmptyString, q|].
      now exists (String c p), q.
    + intros ([|d p] & q & H); [left; now exists q|].
      right. exists p, q. simpl in H. congruence.
Qed.

(** ** Entry Discovery on descriptor objects *)

Lemma toRef_object (fields : list (string * JS.value)) :
  toRef (JS.VObj fields) = JS.Return (refOf fields).
Proof. reflexivity. Qed.

Lemma array_map_toRef (descriptors : list (list (string * JS.value))) :
  array_map toRef (map JS.VObj descriptors) = JS.Return (map refOf descriptors).
Proof.
  induction descriptors as [|fields ds IH]; simpl; [reflexivity|].
  now rewrite IH.
Qed.

Lemma keep_returns (fields : list (string * JS.value)) (b : bool) :
  keep (refOf fields) = JS.Return b -> b = survives fields.
Proof.
  unfold keep, survives, refOf. simpl.
  destruct (JS.truthy (JS.lookup "url" fields)); simpl; [|now intros [= <-]].
  destruct (JS.lookup "download_url" fields) as [| |[]|n|d|?|?]; simpl;
    try (intros [= <-]; reflexivity); try discriminate.
  - destruct (n =? 0)%Z; simpl; [now intros [= <-] | discriminate].
  - destruct (String.eqb_spec d ""); simpl; [|now intros [= <-]].
    subst d. now intros [= <-].
Qed.

Lemma keep_typed (fields : list (string * JS.value)) :
  download_typed fields -> keep (refOf fields) = JS.Return (survives fields).
Proof.
  unfold keep, survives, refOf, download_typed. simpl.
  destruct (JS.truthy (JS.lookup "url" fields)); simpl; [|reflexivity].
  destruct (JS.lookup "download_url" fields) as [| |[]|n|d|?|?]; simpl; try easy.
  now destruct (String.eqb_spec d "") as [->|].
Qed.

Lemma array_filter_keep (descriptors : list (list (string * JS.value)))
  (entries : list DiscoveredRef) :
  array_filter keep (map refOf descriptors) = JS.Return entries ->
  entries = map refOf (List.filter survives descriptors).
Proof.
  revert entries. induction descriptors as [|fields ds IH]; simpl; intros entries.
  - now intros [= <-].
  - destruct (keep (refOf fields)) as [b|e] eqn:Hk; [|discriminate].
    apply keep_returns in Hk as ->.
    destruct (array_filter keep (map refOf ds)) as [ys|e]; [|discriminate].
    intros [= <-]. rewrite (IH ys eq_refl). now destruct (survives fields).
Qed.

Lemma array_filter_typed (descriptors : list (list (string * JS.value))) :
  List.Forall download_typed descriptors ->
  array_filter keep (map refOf descriptors)
  = JS.Return (map refOf (List.filter survives descriptors)).
Proof.
  induction 1 as [|fields ds Hty _ IH]; simpl; [reflexivity|].
  rewrite (keep_typed _ Hty), IH. now destruct (survives fields).
Qed.

Lemma survives_spec (fields : list (string * JS.value)) :
  survives fields = true <->
  JS.truthy (JS.lookup "url" fields) = true
  /\ exists d, JS.lookup "download_url" fields = JS.VStr d
               /\ (exists p, d = p +:+ ".md")
               /\ ~ (exists p q, d = p +:+ "README.md" +:+ q).
Proof.
  unfold survives. rewrite andb_true_iff.
  destruct (JS.lookup "download_url" fields) as [| |?|?|d|?|?];
    try (split; [intros [_ [=]] | intros [_ (d & [=] & _)]]).
  rewrite andb_true_iff, negb_true_iff, endsWith_spec, <- not_true_iff_false, includes_spec.
  split.
  - intros (Hu & He & Hi). split; [exact Hu|]. now exists d.
  - intros (Hu & d' & [= <-] & He & Hi). easy.
Qed.

(** ** Running the fetcher and the tasks *)

Lemma parseEntry_run (P : Platform) (entry : DiscoveredRef) (w : World) :
  parseEntry P entry w
  = (outcome P entry,
     {| store := store w; requests := requests w ++ requested P entry |}).
Proof.
  destruct w as [st rq]. unfold outcome, requested, parseEntry, emptyWorld.
  destruct (new_URL P (selfUrl entry)) as [su|];
    [destruct (new_URL P (downloadUrl entry)) as [du|]|];
    run_monad; rewrite ?app_nil_r; try reflexivity.
  destruct (http P su []) as [mres|]; simpl; [|reflexivity].
  destruct (ok mres); simpl; [|reflexivity].
  destruct (json_body mres) as [metadata|]; simpl; [|reflexivity].
  destruct (JS.truthy metadata); simpl; [|reflexivity].
  destruct (http P du []) as [res|]; simpl; rewrite <- ?app_assoc; [|reflexivity].
  destruct (ok res); simpl; [|reflexivity].
  destruct (String.eqb (text_body res) ""); simpl; [reflexivity|].
  destruct (parseData P _ _); reflexivity.
Qed.

Lemma entryTask_run (P : Platform) (entry : DiscoveredRef) (w : World) :
  entryTask P entry w
  = match outcome P entry with
    | JS.Return (Some data) =>
        (JS.Return tt,
         {| store := <[Doc.url data := data]> (store w);
            requests := requests w ++ requested P entry |})
    | JS.Return None =>
        (JS.Return tt,
         {| store := store w; requests := requests w ++ requested P entry |})
    | JS.Throw e =>
        (JS.Throw e,
         {| store := store w; requests := requests w ++ requested P entry |})
    end.
Proof.
  unfold entryTask, bind. rewrite parseEntry_run.
  destruct (outcome P entry) as [[data|]|e]; reflexivity.
Qed.

Lemma promise_all_store (P : Platform) (order : list DiscoveredRef) (w : World) :
  store (snd (promise_all (map (entryTask P) order) w))
  = write_all (store w) (written P order).
Proof.
  revert w. induction order as [|entry order IH]; intros w; [reflexivity|].
  simpl. rewrite entryTask_run.
  destruct (outcome P entry) as [[data|]|e]; simpl; now rewrite IH.
Qed.

Lemma In_written (P : Platform) (order : list DiscoveredRef)
  (entry : DiscoveredRef) (data : Doc.record) :
  In entry order -> outcome P entry = JS.Return (Some data) ->
  In data (written P order).
Proof.
  intros Hin Hout. induction order as [|e order IH]; [easy|]. simpl.
  destruct Hin as [->|Hin].
  - rewrite Hout. now left.
  - destruct (outcome P e) as [[d|]|]; [right| |]; now apply IH.
Qed.

(** ** Writes to the store *)

Lemma write_all_app (st : gmap string Doc.record) (l1 l2 : list Doc.record) :
  write_all st (l1 ++ l2) = write_all (write_all st l1) l2.
Proof. apply foldl_app. Qed.

Lemma write_all_keyed (st : gmap string Doc.record) (ds : list Doc.record) :
  keyed st -> keyed (write_all st ds).
Proof.
  revert st. induction ds as [|d ds IH]; intros st Hst; [exact Hst|].
  apply IH. intros k d' Hk.
  destruct (decide (Doc.url d = k)) as [<-|Hne].
  - rewrite lookup_insert_eq in Hk. congruence.
  - rewrite lookup_insert_ne in Hk by exact Hne. now apply Hst.
Qed.

Lemma write_all_other (st : gmap string Doc.record) (ds : list Doc.record) (k : string) :
  (forall d, In d ds -> Doc.url d <> k) -> write_all st ds !! k = st !! k.
Proof.
  revert st. induction ds as [|d ds IH]; intros st Hds; [reflexivity|].
  simpl. rewrite IH by (intros d' Hd'; apply Hds; now right).
  apply lookup_insert_ne, Hds. now left.
Qed.

Lemma write_all_last (st : gmap string Doc.record) (before after : list Doc.record)
  (d : Doc.record) :
  (forall d', In d' after -> Doc.url d' <> Doc.url d) ->
  write_all st (before ++ d :: after) !! Doc.url d = Some d.
Proof.
  intros Hafter. rewrite write_all_app. simpl.
  rewrite write_all_other by exact Hafter. apply lookup_insert_eq.
Qed.

Lemma write_all_lookup (st : gmap string Doc.record) (ds : list Doc.record)
  (d : Doc.record) :
  In d ds ->
  exists d', write_all st ds !! Doc.url d = Some d' /\ In d' ds /\ Doc.url d' = Doc.url d.
Proof.
  induction ds as [|x ds IH] using rev_ind; intros Hin; [easy|].
  rewrite write_all_app. simpl.
  destruct (decide (Doc.url x = Doc.url d)) as [E|Hne].
  - exists x. rewrite <- E, lookup_insert_eq.
    repeat split. apply in_or_app. right. now left.
  - rewrite lookup_insert_ne by exact Hne.
    apply in_app_or in Hin as [Hin|[->|[]]]; [|congruence].
    destruct (IH Hin) as (d' & Hl & Hd' & Hu). exists d'.
    repeat split; [exact Hl | | exact Hu]. apply in_or_app. now left.
Qed.

Lemma keyed_one_record (st : gmap string Doc.record) (d : Doc.record) :
  keyed st -> st !! Doc.url d = Some d ->
  stored_with_url (Doc.url d) st = {[ Doc.url d := d ]}.
Proof.
  intros Hk Hd. unfold stored_with_url. apply map_eq. intros k.
  destruct (decide (k = Doc.url d)) as [->|Hne].
  - rewrite lookup_singleton_eq. apply map_lookup_filter_Some. easy.
  - rewrite lookup_singleton_ne by congruence.
    apply map_lookup_filter_None. right. intros d' Hd' Hu. simpl in Hu.
    apply Hk in Hd'. congruence.
Qed.

Lemma fetchDocsEntries_listing (P : Platform) (options : Options) (w : World)
  (url : string) (res : Response) (items : list JS.value) :
  new_URL P (listingUrl options) = Some url ->
  http P url listingHeaders = Some res ->
  ok res = true ->
  json_body res = Some (JS.VArr items) ->
  fetchDocsEntries P options w
  = (selectEntries items,
     {| store := store w; requests := requests w ++ [(url, listingHeaders)] |}).
Proof.
  intros Hurl Hres Hok Hjson. unfold fetchDocsEntries.
  fold (listingUrl options). rewrite Hurl.
  unfold bind, fetch, res_json, lift. rewrite Hres, Hok. cbn [negb].
  now rewrite Hjson.
Qed.

Lemma fetchDocsEntries_store (P : Platform) (options : Options) (w : World) :
  store (snd (fetchDocsEntries P options w)) = store w.
Proof.
  unfold fetchDocsEntries. destruct (new_URL P _) as [url|]; [|reflexivity].
  unfold bind, fetch, res_json, lift, throw, ret.
  destruct (http P url listingHeaders) as [res|]; [|reflexivity].
  destruct (ok res); [|reflexivity]. cbn [negb].
  destruct (json_body res) as [[]|]; reflexivity.
Qed.

(** ** The properties of Entry Discovery *)

(** C1, as stated, fails: a descriptor whose metadata address is the empty
    string has both fields and a download address that ends in [.md]
    without [README.md], and the filter drops it. *)
Lemma empty_url_dropped :
  spec_survives emptyUrlDescriptor = true
  /\ selectEntries [JS.VObj emptyUrlDescriptor] = JS.Return [].
Proof. split; vm_compute; reflexivity. Qed.

(** C1, amended: a descriptor object of the listing survives the filter if
    and only if its metadata address is truthy (there, and not the empty
    string), and its download address is a string that ends in [.md] and does
    not contain [README.md].  Whenever discovery returns, it returns the
    references of the surviving descriptors in the order of the listing; and
    it returns whenever every download address is a string, [null] or
    missing. *)
Theorem discovery_filter (descriptors : list (list (string * JS.value))) :
  (forall fields,
      survives fields = true <->
      JS.truthy (JS.lookup "url" fields) = true
      /\ exists d, JS.lookup "download_url" fields = JS.VStr d
                   /\ (exists p, d = p +:+ ".md")
                   /\ ~ (exists p q, d = p +:+ "README.md" +:+ q))
  /\ (forall entries,
         selectEntries (map JS.VObj descriptors) = JS.Return entries ->
         entries = map refOf (List.filter survives descriptors))
  /\ (List.Forall download_typed descriptors ->
      selectEntries (map JS.VObj descriptors)
      = JS.Return (map refOf (List.filter survives descriptors)))
  /\ (forall P options w url res,
         new_URL P (listingUrl options) = Some url ->
         http P url listingHeaders = Some res ->
         ok res = true ->
         json_body res = Some (JS.VArr (map JS.VObj descriptors)) ->
         fst (fetchDocsEntries P options w) = selectEntries (map JS.VObj descriptors)).
Proof.
  split; [exact survives_spec|].
  assert (Hlisting : forall P options w url res,
             new_URL P (listingUrl options) = Some url ->
             http P url listingHeaders = Some res ->
             ok res = true ->
             json_body res = Some (JS.VArr (map JS.VObj descriptors)) ->
             fst (fetchDocsEntries P options w) = selectEntries (map JS.VObj descriptors)).
  { intros P options w url res Hurl Hres Hok Hjson.
    now rewrite (fetchDocsEntries_listing P options w url res _ Hurl Hres Hok Hjson). }
  unfold selectEntries in *. rewrite array_map_toRef in *.
  split; [intros entries; apply array_filter_keep|].
  split; [apply array_filter_typed | exact Hlisting].
Qed.

Lemma discovery_filter_witness :
  selectEntries (map JS.VObj demoDescriptors) = JS.Return [demoEntry; demoEntry2].
Proof.
  refine (proj1 (proj2 (proj2 (discovery_filter demoDescriptors))) _).
  repeat constructor.
Defined.

(** C7: where the answer to the listing request is not a success, or its
    body is not a JSON array (the error object [{"message":"Not Found"}] for
    one), discovery throws: the run ends with that error before any request
    for an entry is sent, and the store is as it was. *)
Theorem listing_failure_is_fatal (P : Platform) (options : Options) (w : World)
  (url : string) (res : Response) :
  new_URL P (listingUrl options) = Some url ->
  http P url listingHeaders = Some res ->
  let w' := {| store := store w; requests := requests w ++ [(url, listingHeaders)] |} in
  (ok res = false ->
   load (ollamaDocsLoader options) P w
   = (JS.Throw (JS.Error ("Failed to fetch " +:+ repo options +:+ path options
                          +:+ " from GitHub")), w'))
  /\ (ok res = true -> forall v,
      json_body res = Some v -> is_array v = false ->
      load (ollamaDocsLoader options) P w
      = (JS.Throw (JS.Error "Failed to fetch docs from GitHub"), w'))
  /\ (ok res = true -> json_body res = None ->
      load (ollamaDocsLoader options) P w = (JS.Throw JS.SyntaxError, w'))
  /\ (json_body res = Some (JS.VObj [("message", JS.VStr "Not Found")]) ->
      exists e, load (ollamaDocsLoader options) P w = (JS.Throw e, w')).
Proof.
  intros Hurl Hres w'. unfold w'. simpl. unfold fetchDocsEntries.
  fold (listingUrl options). rewrite Hurl. run_monad. rewrite Hres.
  repeat split.
  - now intros ->.
  - intros -> v -> Hv. simpl. now destruct v.
  - now intros -> ->.
  - intros ->. destruct (ok res); simpl; eauto.
Qed.

Lemma listing_failure_is_fatal_witness :
  load (ollamaDocsLoader demoOptions) (notFoundPlatform false) emptyWorld
  = (JS.Throw (JS.Error "Failed to fetch ollama/ollamadocs from GitHub"),
     {| store := ∅;
        requests := [("https://api.github.com/repos/ollama/ollama/contents/docs",
                      listingHeaders)] |})
  /\ load (ollamaDocsLoader demoOptions) (notFoundPlatform true) emptyWorld
     = (JS.Throw (JS.Error "Failed to fetch docs from GitHub"),
        {| store := ∅;
           requests := [("https://api.github.com/repos/ollama/ollama/contents/docs",
                         listingHeaders)] |}).
Proof.
  split.
  - apply (listing_failure_is_fatal (notFoundPlatform false) demoOptions emptyWorld
             "https://api.github.com/repos/ollama/ollama/contents/docs" _
             eq_refl eq_refl).
    reflexivity.
  - refine (proj1 (proj2 (listing_failure_is_fatal (notFoundPlatform true) demoOptions
                            emptyWorld
                            "https://api.github.com/repos/ollama/ollama/contents/docs" _
                            eq_refl eq_refl)) eq_refl _ eq_refl eq_refl).
Defined.

(** ** The properties of the Entry Fetcher *)

Lemma lookup_assign_eq (k : string) (v : JS.value) (fields : list (string * JS.value)) :
  JS.lookup k (JS.assign k v fields) = v.
Proof.
  induction fields as [|[k' v'] fields IH]; simpl.
  - now rewrite String.eqb_refl.
  - destruct (String.eqb k k') eqn:E; simpl; [now rewrite String.eqb_refl|].
    now rewrite E.
Qed.

Lemma lookup_assign_ne (k k' : string) (v : JS.value) (fields : list (string * JS.value)) :
  k' <> k -> JS.lookup k' (JS.assign k v fields) = JS.lookup k' fields.
Proof.
  intros Hne. apply String.eqb_neq in Hne.
  induction fields as [|[k0 v0] fields IH]; simpl.
  - now rewrite Hne.
  - destruct (String.eqb_spec k k0) as [<-|]; simpl.
    + now rewrite Hne.
    + now rewrite IH.
Qed.

(** C9: the [content] of the candidate record is the rewritten text of the
    download, every other field of the candidate is the field of the
    metadata, and this candidate, with the [url] of the metadata as its id,
    is what the fetcher hands to the validation. *)
Theorem candidate_merges (metadata : JS.value) (text : string) :
  JS.lookup "content" (candidate metadata text) = JS.VStr (transformMarkdownLinks text)
  /\ (forall k, k <> "content" ->
         JS.lookup k (candidate metadata text) = JS.lookup k (JS.spread metadata))
  /\ (forall fields k, metadata = JS.VObj fields -> k <> "content" ->
         JS.lookup k (candidate metadata text) = JS.lookup k fields)
  /\ (forall P entry su du mres res,
         new_URL P (selfUrl entry) = Some su ->
         new_URL P (downloadUrl entry) = Some du ->
         http P su [] = Some mres -> ok mres = true ->
         json_body mres = Some metadata -> JS.truthy metadata = true ->
         http P du [] = Some res -> ok res = true ->
         text_body res = text -> text <> EmptyString ->
         outcome P entry
         = match parseData P (candidate_id metadata) (candidate metadata text) with
           | JS.Return data => JS.Return (Some data)
           | JS.Throw e => JS.Throw e
           end).
Proof.
  unfold candidate. split; [apply lookup_assign_eq|].
  split; [intros k Hk; now apply lookup_assign_ne|].
  split; [intros fields k -> Hk; now apply lookup_assign_ne|].
  intros P entry su du mres res Hsu Hdu Hm Hmok Hmj Hmt Hr Hrok Ht Hne.
  unfold outcome, parseEntry. rewrite Hsu, Hdu. run_monad.
  rewrite Hm, Hmok. simpl. rewrite Hmj. simpl. rewrite Hmt. simpl.
  rewrite Hr, Hrok. simpl. rewrite Ht.
  apply String.eqb_neq in Hne. rewrite Hne. unfold candidate.
  now destruct (parseData P _ _).
Qed.

Lemma candidate_merges_witness :
  outcome demoPlatform demoEntry
  = JS.Return (Some (demoRecord "See [Intro](/docs/intro.md#setup).")).
Proof.
  refine (proj2 (proj2 (proj2 (candidate_merges demoMetadata "See [Intro](./intro.md#setup).")))
            demoPlatform demoEntry _ _ _ _
            eq_refl eq_refl eq_refl eq_refl eq_refl eq_refl eq_refl eq_refl eq_refl _).
  discriminate.
Defined.

(** ** The properties of the store writes *)

(** C8: a run puts every record the fetcher returns under the key that is
    its [url].  So after the run the store holds, for the [url] of any such
    record, exactly one record with that [url], under that key; and of the
    records with one [url] the one written last is the one the store
    holds. *)
Theorem same_url_one_record (P : Platform) (options : Options) (w w1 : World)
  (entries : list DiscoveredRef) :
  fetchDocsEntries P options w = (JS.Return entries, w1) ->
  keyed (store w) ->
  let order := schedule P entries in
  let st' := store (snd (load (ollamaDocsLoader options) P w)) in
  (forall entry data w0,
      outcome P entry = JS.Return (Some data) ->
      store (snd (entryTask P entry w0)) = <[Doc.url data := data]> (store w0))
  /\ st' = write_all (store w) (written P order)
  /\ (forall entry data,
         In entry entries -> outcome P entry = JS.Return (Some data) ->
         exists data',
           In data' (written P order)
           /\ Doc.url data' = Doc.url data
           /\ st' !! Doc.url data = Some data'
           /\ stored_with_url (Doc.url data) st' = {[ Doc.url data := data' ]})
  /\ (forall before data after,
         written P order = (before ++ data :: after)%list ->
         (forall data', In data' after -> Doc.url data' <> Doc.url data) ->
         st' !! Doc.url data = Some data).
Proof.
  intros Hfetch Hkeyed order st'.
  assert (Hst : st' = write_all (store w) (written P order)).
  { unfold st'. simpl. unfold bind. rewrite Hfetch, promise_all_store.
    pose proof (fetchDocsEntries_store P options w) as Hsame.
    rewrite Hfetch in Hsame. simpl in Hsame. now rewrite Hsame. }
  split.
  { intros entry data w0 Hout. rewrite entryTask_run, Hout. reflexivity. }
  split; [exact Hst|]. split.
  - intros entry data Hin Hout.
    assert (Hw : In data (written P order)).
    { apply (In_written P order entry); [|exact Hout].
      eapply Permutation_in; [|exact Hin].
      symmetry. apply schedule_runs_all. }
    destruct (write_all_lookup (store w) _ _ Hw) as (data' & Hl & Hd' & Hu).
    exists data'. rewrite Hst. repeat split; try assumption.
    rewrite <- Hu. apply keyed_one_record.
    + now apply write_all_keyed.
    + now rewrite Hu.
  - intros before data after Hw Hafter. rewrite Hst, Hw.
    now apply write_all_last.
Qed.

Lemma same_url_one_record_witness :
  store (snd (load (ollamaDocsLoader demoOptions) demoPlatform emptyWorld))
    !! Doc.url (demoRecord "See [Back](/docs/index.md).")
  = Some (demoRecord "See [Back](/docs/index.md).").
Proof.
  refine (proj2 (proj2 (proj2
            (same_url_one_record demoPlatform demoOptions emptyWorld _
               [demoEntry; demoEntry2] eq_refl _)))
            [demoRecord "See [Intro](/docs/intro.md#setup)."] _ [] eq_refl _).
  - intros k d H. simpl in H. rewrite lookup_empty in H. discriminate.
  - intros data' [].
Defined.

(** ** More on the Link Rewriter *)

Lemma rewriteAddress_not_relative (url : string) :
  relative (rewriteAddress url) = false.
Proof. unfold rewriteAddress. now destruct (relative url) eqn:E. Qed.

Lemma rewriteAddress_usable (url : string) :
  url <> EmptyString -> occurs ")" url = false ->
  rewriteAddress url <> EmptyString /\ occurs ")" (rewriteAddress url) = false.
Proof.
  intros Hu Huo. unfold rewriteAddress. destruct (relative url); [|easy].
  split; [discriminate | now apply occurs_rewrittenUrl].
Qed.

Lemma replacer_rewriteAddress (text url : string) :
  replacer (link text url) text url = link text (rewriteAddress url).
Proof. rewrite replacer_cases. unfold rewriteAddress. now destruct (relative url). Qed.

(** X2: the inline links of the output are the inline links of the input,
    as many and in the same order, each with its text unchanged and its
    address rewritten where it was relative; so no inline link of the output
    has a relative address. *)
Theorem links_of_output (s : string) :
  inlineLinks (transformMarkdownLinks s)
  = map (fun l => (fst l, rewriteAddress (snd l))) (inlineLinks s)
  /\ List.Forall (fun l => relative (snd l) = false)
       (inlineLinks (transformMarkdownLinks s)).
Proof.
  assert (H : inlineLinks (transformMarkdownLinks s)
              = map (fun l => (fst l, rewriteAddress (snd l))) (inlineLinks s)).
  { induction s as [|c s Hnone IH|s text url rest Hscan IH] using scan_ind.
    - reflexivity.
    - rewrite (transform_step (String c s)), Hnone.
      rewrite inlineLinks_step, (scanLink_transform c s Hnone), IH.
      now rewrite (inlineLinks_step (String c s)), Hnone.
    - rewrite (transform_step s), (inlineLinks_step s), Hscan, replacer_rewriteAddress.
      apply scanLink_Some in Hscan as (_ & Ht & Hto & Hu & Huo).
      destruct (rewriteAddress_usable url Hu Huo) as [Hu' Huo'].
      rewrite inlineLinks_step, scanLink_link by assumption.
      simpl. now rewrite IH. }
  split; [exact H|]. rewrite H. apply List.Forall_forall.
  intros l [[text url] [<- _]]%List.in_map_iff. apply rewriteAddress_not_relative.
Qed.

Lemma occurs_link_all (c : ascii) (text url rest : string) :
  In c ["["; "]"; "("; ")"]%char -> occurs c (link text url +:+ rest) = true.
Proof.
  intros Hc. rewrite link_append. simpl. rewrite !occurs_append. simpl.
  rewrite !occurs_append. simpl.
  destruct Hc as [<-|[<-|[<-|[<-|[]]]]]; simpl; now rewrite ?orb_true_r.
Qed.

(** X3: a text in which one of the characters [[], []], [(], [)] does not
    occur holds no match of the link pattern, and the rewriter returns it as
    it is. *)
Theorem text_without_link_characters (c : ascii) (s : string) :
  In c ["["; "]"; "("; ")"]%char -> occurs c s = false ->
  inlineLinks s = [] /\ transformMarkdownLinks s = s.
Proof.
  intros Hc. induction s as [|x s IH]; intros Hs; [split; reflexivity|].
  rewrite transform_step, inlineLinks_step.
  destruct (scanLink (String x s)) as [[[text url] rest]|] eqn:E.
  - apply scanLink_Some in E as (E & _). rewrite E in Hs.
    now rewrite (occurs_link_all c text url rest Hc) in Hs.
  - simpl in Hs. apply orb_false_iff in Hs as [_ Hs].
    destruct (IH Hs) as [Hl Ht]. now rewrite Hl, Ht.
Qed.

Lemma text_without_link_characters_witness :
  inlineLinks "a list: [x], [y] and ./z.md" = []
  /\ transformMarkdownLinks "a list: [x], [y] and ./z.md"
     = "a list: [x], [y] and ./z.md".
Proof.
  apply (text_without_link_characters "(" "a list: [x], [y] and ./z.md").
  - right. right. now left.
  - reflexivity.
Defined.

(** X4: the link pattern matches at the start of a text exactly when the
    text starts with [[text](url)] for a non-empty [text] without []] and a
    non-empty [url] without [)]; the captures are then that text and that
    address, and the rest is what follows the [)].  The greedy search has
    no other way to match. *)
Theorem link_pattern_matches (s : string) :
  (forall text url rest,
      JS.exec linkRegex s = Some ([text; url], rest) <->
      s = link text url +:+ rest
      /\ text <> EmptyString /\ occurs "]" text = false
      /\ url <> EmptyString /\ occurs ")" url = false)
  /\ (forall caps rest,
         JS.exec linkRegex s = Some (caps, rest) ->
         exists text url, caps = [text; url]
                          /\ String.length rest < String.length s).
Proof.
  rewrite exec_linkRegex. split.
  - intros text url rest. split.
    + destruct (scanLink s) as [[[t u] r]|] eqn:E; [|discriminate].
      intros [= -> -> ->]. now apply scanLink_Some.
    + intros (-> & Ht & Hto & Hu & Huo). now rewrite scanLink_link.
  - intros caps rest. destruct (scanLink s) as [[[t u] r]|] eqn:E; [|discriminate].
    intros [= <- <-]. exists t, u. split; [reflexivity|].
    now apply scanLink_shorter in E.
Qed.

(** X5: of a relative address with several [#] the rewriter keeps what
    stands before the first [#] as the path and what stands between the
    first and the second [#] as the fragment; everything from the second
    [#] on is dropped. *)
Theorem second_hash_cuts_fragment (m text p f r : string) :
  relative (p +:+ "#" +:+ f +:+ "#" +:+ r) = true ->
  occurs "#" p = false -> occurs "#" f = false ->
  replacer m text (p +:+ "#" +:+ f +:+ "#" +:+ r)
  = link text ("/docs/" +:+ strip "../" (strip "./" p)
               +:+ match f with
                   | EmptyString => EmptyString
                   | String _ _ => "#" +:+ f
                   end).
Proof.
  intros Hrel Hp Hf. rewrite replacer_cases, Hrel. unfold rewrittenUrl.
  change (p +:+ "#" +:+ f +:+ "#" +:+ r) with (p +:+ String "#" (f +:+ String "#" r)).
  rewrite (split_first "#" p _ Hp), (split_first "#" f r Hf).
  now destruct f.
Qed.

Lemma second_hash_cuts_fragment_witness :
  replacer "[a](./x.md#b#c)" "a" "./x.md#b#c" = "[a](/docs/x.md#b)".
Proof.
  apply (second_hash_cuts_fragment "[a](./x.md#b#c)" "a" "./x.md" "b" "c");
    reflexivity.
Defined.

(** ** More on Entry Discovery *)

Lemma array_map_Return {A B : Type} (f : A -> JS.completion B) (l : list A) (ys : list B) :
  array_map f l = JS.Return ys -> List.Forall2 (fun x y => f x = JS.Return y) l ys.
Proof.
  revert ys. induction l as [|x l IH]; simpl; intros ys.
  - intros [= <-]. constructor.
  - destruct (f x) as [y|e] eqn:Hx; [|discriminate].
    destruct (array_map f l) as [ys'|e]; [|discriminate].
    intros [= <-]. constructor; [exact Hx | now apply IH].
Qed.

Lemma array_map_Throw {A B : Type} (f : A -> JS.completion B) (l : list A) (e : JS.error) :
  array_map f l = JS.Throw e -> List.Exists (fun x => f x = JS.Throw e) l.
Proof.
  induction l as [|x l IH]; simpl; [discriminate|].
  destruct (f x) as [y|e'] eqn:Hx.
  - destruct (array_map f l) as [ys'|e']; [discriminate|].
    intros [= ->]. right. now apply IH.
  - intros [= ->]. now left.
Qed.

Lemma array_filter_Return {A : Type} (f : A -> JS.completion bool) (l ys : list A) :
  array_filter f l = JS.Return ys ->
  List.Forall (fun x => exists b, f x = JS.Return b) l
  /\ List.Forall (fun y => f y = JS.Return true) ys
  /\ length ys <= length l.
Proof.
  revert ys. induction l as [|x l IH]; simpl; intros ys.
  - intros [= <-]. split; [constructor|]. split; [constructor | simpl; lia].
  - destruct (f x) as [b|e] eqn:Hx; [|discriminate].
    destruct (array_filter f l) as [ys'|e]; [|discriminate].
    destruct (IH ys' eq_refl) as (Hl & Hys & Hlen).
    intros [= <-]. split; [constructor; eauto|].
    destruct b; simpl; (split; [|lia]); [constructor|]; assumption.
Qed.

Lemma array_filter_Throw {A : Type} (f : A -> JS.completion bool) (l : list A) (e : JS.error) :
  array_filter f l = JS.Throw e -> List.Exists (fun x => f x = JS.Throw e) l.
Proof.
  induction l as [|x l IH]; simpl; [discriminate|].
  destruct (f x) as [b|e'] eqn:Hx.
  - destruct (array_filter f l) as [ys'|e']; [discriminate|].
    intros [= ->]. right. now apply IH.
  - intros [= ->]. now left.
Qed.

Lemma array_map_length {A B : Type} (f : A -> JS.completion B) (l : list A) (ys : list B) :
  array_map f l = JS.Return ys -> length ys = length l.
Proof.
  intros H%array_map_Return. induction H; simpl; congruence.
Qed.

Lemma keep_true (entry : DiscoveredRef) :
  keep entry = JS.Return true ->
  JS.truthy (selfUrl entry) = true
  /\ exists d, downloadUrl entry = JS.VStr d
               /\ JS.endsWith d ".md" = true /\ JS.includes d "README.md" = false.
Proof.
  unfold keep. destruct (JS.truthy (selfUrl entry)); simpl; [|discriminate].
  destruct (JS.truthy (downloadUrl entry)); simpl; [|discriminate].
  destruct (downloadUrl entry) as [| |?|?|d|?|?]; try discriminate.
  intros [= [He Hi%negb_true_iff]%andb_true_iff]. eauto.
Qed.

Lemma keep_Throw (entry : DiscoveredRef) (e : JS.error) :
  keep entry = JS.Throw e <->
  e = JS.TypeError
  /\ JS.truthy (selfUrl entry) = true /\ JS.truthy (downloadUrl entry) = true
  /\ forall d, downloadUrl entry <> JS.VStr d.
Proof.
  unfold keep. destruct (JS.truthy (selfUrl entry)); simpl; [|split; [easy | now intros (_ & [=] & _)]].
  destruct (JS.truthy (downloadUrl entry)); simpl; [|split; [easy | now intros (_ & _ & [=] & _)]].
  destruct (downloadUrl entry) as [| |?|?|d|?|?];
    try (split; [now intros [= <-] | now intros (-> & _)]).
  split; [easy|]. intros (_ & _ & _ & H). now destruct (H d).
Qed.

Lemma toRef_Throw (v : JS.value) (e : JS.error) :
  toRef v = JS.Throw e <-> e = JS.TypeError /\ (v = JS.VNull \/ v = JS.VUndefined).
Proof.
  destruct v; simpl; split; try easy; try (intros [= <-]; auto);
    try (intros [-> _]; reflexivity); intros [_ [[=]|[=]]].
Qed.

(** X6: whatever the elements of the listing are, every reference that
    discovery returns has a truthy metadata address and a download address
    that is a string, ends in [.md] and does not contain [README.md]; and
    discovery returns no more references than the listing has elements. *)
Theorem discovered_refs_eligible (items : list JS.value) (entries : list DiscoveredRef) :
  selectEntries items = JS.Return entries ->
  List.Forall
    (fun entry =>
       JS.truthy (selfUrl entry) = true
       /\ exists d, downloadUrl entry = JS.VStr d
                    /\ (exists p, d = p +:+ ".md")
                    /\ ~ (exists p q, d = p +:+ "README.md" +:+ q))
    entries
  /\ length entries <= length items.
Proof.
  unfold selectEntries. destruct (array_map toRef items) as [refs|e] eqn:Hmap; [|discriminate].
  intros (_ & Hkeep & Hlen)%array_filter_Return.
  rewrite <- (array_map_length _ _ _ Hmap). split; [|exact Hlen].
  eapply List.Forall_impl; [|exact Hkeep]. intros entry (Hu & d & Hd & He & Hi)%keep_true.
  split; [exact Hu|]. exists d. split; [exact Hd|].
  split; [now apply endsWith_spec|].
  intros Hin%includes_spec. congruence.
Qed.

Lemma discovered_refs_eligible_witness :
  List.Forall
    (fun entry =>
       JS.truthy (selfUrl entry) = true
       /\ exists d, downloadUrl entry = JS.VStr d
                    /\ (exists p, d = p +:+ ".md")
                    /\ ~ (exists p q, d = p +:+ "README.md" +:+ q))
    [demoEntry; demoEntry2]
  /\ length [demoEntry; demoEntry2] <= length (JS.VNum 7 :: map JS.VObj demoDescriptors).
Proof.
  apply (discovered_refs_eligible (JS.VNum 7 :: map JS.VObj demoDescriptors)).
  reflexivity.
Defined.

(** X7: discovery throws exactly when some element of the listing is
    [null], or is an object with a truthy [url] whose [download_url] is
    truthy and not a string; and what it throws is always a [TypeError]. *)
Theorem discovery_throws_on_unusable (items : list JS.value) :
  (selectEntries items = JS.Throw JS.TypeError <-> List.Exists unusable items)
  /\ (forall e, selectEntries items = JS.Throw e -> e = JS.TypeError).
Proof.
  assert (Hthrow : forall e, selectEntries items = JS.Throw e ->
                             e = JS.TypeError /\ List.Exists unusable items).
  { intros e. unfold selectEntries.
    destruct (array_map toRef items) as [refs|e'] eqn:Hmap.
    - intros Hf%array_filter_Throw. apply array_map_Return in Hmap.
      apply List.Exists_exists in Hf as (entry & Hin & (-> & Hu & Hd & Hs)%keep_Throw).
      split; [reflexivity|]. clear -Hmap Hin Hu Hd Hs.
      induction Hmap as [|v y items refs Hv _ IH]; [easy|].
      destruct Hin as [->|Hin]; [left | right; now apply IH].
      destruct v; simpl in Hv; try discriminate; injection Hv as <-;
        simpl in Hu, Hd, Hs; try discriminate.
      right. right. eauto.
    - intros [= ->]. apply array_map_Throw in Hmap.
      apply List.Exists_exists in Hmap as (v & Hin & (-> & Hv)%toRef_Throw).
      split; [reflexivity|]. apply List.Exists_exists. exists v.
      split; [exact Hin|]. destruct Hv; [now left | right; now left]. }
  split; [split|].
  - intros H. now apply Hthrow in H.
  - intros Hex. destruct (selectEntries items) as [entries|e] eqn:Hsel.
    + exfalso. unfold selectEntries in Hsel.
      destruct (array_map toRef items) as [refs|e] eqn:Hmap; [|discriminate].
      apply array_map_Return in Hmap. apply array_filter_Return in Hsel as (Hall & _).
      clear -Hmap Hall Hex.
      induction Hmap as [|v y items refs Hv _ IH]; [inversion Hex|].
      apply List.Forall_cons_iff in Hall as [[b Hb] Hall].
      apply List.Exists_cons in Hex as [Hbad|Hex]; [|now apply IH].
      destruct Hbad as [->|[->|(fields & -> & Hu & Hd & Hs)]]; try discriminate.
      simpl in Hv. injection Hv as <-.
      assert (Ht : keep (refOf fields) = JS.Throw JS.TypeError)
        by (apply keep_Throw; repeat split; assumption).
      unfold refOf in Ht. congruence.
    + now destruct (Hthrow e eq_refl) as [-> _].
  - intros e H. now apply Hthrow in H.
Qed.

Lemma fetchDocsEntries_requests (P : Platform) (options : Options) (w : World) :
  requests (snd (fetchDocsEntries P options w))
  = (requests w
     ++ match new_URL P (listingUrl options) with
        | Some url => [(url, listingHeaders)]
        | None => []
        end)%list.
Proof.
  unfold fetchDocsEntries. fold (listingUrl options).
  destruct (new_URL P (listingUrl options)) as [url|].
  - unfold bind, fetch, res_json, lift, throw, ret.
    destruct (http P url listingHeaders) as [res|]; [|reflexivity].
    destruct (ok res); [|reflexivity]. cbn [negb].
    destruct (json_body res) as [[]|]; reflexivity.
  - simpl. now rewrite app_nil_r.
Qed.

(** X8: discovery sends one request, for the address of the listing with
    the [Accept] and [User-Agent] headers, and never writes to the store;
    where the address of the listing cannot be built it sends none and
    throws a [TypeError]. *)
Theorem discovery_effects (P : Platform) (options : Options) (w : World) :
  store (snd (fetchDocsEntries P options w)) = store w
  /\ requests (snd (fetchDocsEntries P options w))
     = (requests w
        ++ match new_URL P (listingUrl options) with
           | Some url =>
               [(url, [("Accept", "application/vnd.github.v3+json");
                       ("User-Agent", "astro")])]
           | None => []
           end)%list
  /\ (new_URL P (listingUrl options) = None ->
      fst (fetchDocsEntries P options w) = JS.Throw JS.TypeError).
Proof.
  split; [apply fetchDocsEntries_store|].
  split; [apply fetchDocsEntries_requests|].
  intros Hnone. unfold fetchDocsEntries. fold (listingUrl options). now rewrite Hnone.
Qed.

(** ** More on the Entry Fetcher *)

(** The result of the fetcher, step by step. *)
Lemma outcome_steps (P : Platform) (entry : DiscoveredRef) :
  outcome P entry =
  match new_URL P (selfUrl entry), new_URL P (downloadUrl entry) with
  | Some su, Some du =>
      match http P su [] with
      | None => JS.Throw JS.TypeError
      | Some mres =>
          if negb (ok mres) then JS.Throw (JS.Error ("Failed to fetch " +:+ su))
          else match json_body mres with
               | None => JS.Throw JS.SyntaxError
               | Some metadata =>
                   if negb (JS.truthy metadata) then
                     JS.Throw (JS.Error ("Failed to fetch " +:+ su))
                   else match http P du [] with
                        | None => JS.Throw JS.TypeError
                        | Some res =>
                            if negb (ok res) then
                              JS.Throw (JS.Error ("Failed to fetch " +:+ du))
                            else if String.eqb (text_body res) "" then
                              JS.Throw (JS.Error ("Failed to fetch " +:+ du))
                            else
                              match parseData P (candidate_id metadata)
                                      (candidate metadata (text_body res)) with
                              | JS.Return data => JS.Return (Some data)
                              | JS.Throw e => JS.Throw e
                              end
                        end
               end
      end
  | _, _ => JS.Return None
  end.
Proof.
  unfold outcome, parseEntry, emptyWorld.
  destruct (new_URL P (selfUrl entry)) as [su|];
    [destruct (new_URL P (downloadUrl entry)) as [du|]|]; try reflexivity.
  run_monad.
  destruct (http P su []) as [mres|]; simpl; [|reflexivity].
  destruct (ok mres); simpl; [|reflexivity].
  destruct (json_body mres) as [metadata|]; simpl; [|reflexivity].
  destruct (JS.truthy metadata); simpl; [|reflexivity].
  destruct (http P du []) as [res|]; simpl; [|reflexivity].
  destruct (ok res); simpl; [|reflexivity].
  destruct (String.eqb (text_body res) ""); simpl; [reflexivity|].
  now destruct (parseData P _ _).
Qed.

(** The requests of the fetcher, step by step. *)
Lemma requested_steps (P : Platform) (entry : DiscoveredRef) :
  requested P entry =
  match new_URL P (selfUrl entry), new_URL P (downloadUrl entry) with
  | Some su, Some du =>
      (su, [])
      :: match http P su [] with
         | None => []
         | Some mres =>
             match json_body mres with
             | Some metadata =>
                 if ok mres && JS.truthy metadata then [(du, [])] else []
             | None => []
             end
         end
  | _, _ => []
  end.
Proof.
  unfold requested, parseEntry, emptyWorld.
  destruct (new_URL P (selfUrl entry)) as [su|];
    [destruct (new_URL P (downloadUrl entry)) as [du|]|]; try reflexivity.
  run_monad.
  destruct (http P su []) as [mres|]; simpl; [|reflexivity].
  destruct (ok mres); simpl; [|now destruct (json_body mres)].
  destruct (json_body mres) as [metadata|]; simpl; [|reflexivity].
  destruct (JS.truthy metadata); simpl; [|reflexivity].
  destruct (http P du []) as [res|]; simpl; [|reflexivity].
  destruct (ok res); simpl; [|reflexivity].
  destruct (String.eqb (text_body res) ""); simpl; [reflexivity|].
  now destruct (parseData P _ _).
Qed.

(** X9: the fetcher returns no record ([null]) only where the metadata
    address or the download address of the entry does not parse: every
    other failure is thrown. *)
Theorem null_only_for_unparsable (P : Platform) (entry : DiscoveredRef) (w : World) :
  fst (parseEntry P entry w) = JS.Return None <->
  new_URL P (selfUrl entry) = None \/ new_URL P (downloadUrl entry) = None.
Proof.
  rewrite parseEntry_run. simpl. rewrite outcome_steps.
  destruct (new_URL P (selfUrl entry)) as [su|];
    [destruct (new_URL P (downloadUrl entry)) as [du|]|]; [|tauto|tauto].
  split; [|now intros [|]].
  destruct (http P su []) as [mres|]; [|discriminate].
  destruct (negb (ok mres)); [discriminate|].
  destruct (json_body mres) as [metadata|]; [|discriminate].
  destruct (negb (JS.truthy metadata)); [discriminate|].
  destruct (http P du []) as [res|]; [|discriminate].
  destruct (negb (ok res)); [discriminate|].
  destruct (String.eqb (text_body res) ""); [discriminate|].
  now destruct (parseData P _ _).
Qed.

(** X10: a record the fetcher returns is a record the validation returned
    for the candidate: both addresses parsed, both responses were
    successes, the metadata was truthy JSON and the text was not empty. *)
Theorem returned_record_is_validated (P : Platform) (entry : DiscoveredRef) (w : World)
  (data : Doc.record) :
  fst (parseEntry P entry w) = JS.Return (Some data) ->
  exists su du mres res metadata,
    new_URL P (selfUrl entry) = Some su
    /\ new_URL P (downloadUrl entry) = Some du
    /\ http P su [] = Some mres /\ ok mres = true
    /\ json_body mres = Some metadata /\ JS.truthy metadata = true
    /\ http P du [] = Some res /\ ok res = true
    /\ text_body res <> EmptyString
    /\ parseData P (candidate_id metadata) (candidate metadata (text_body res))
       = JS.Return data.
Proof.
  rewrite parseEntry_run. simpl. rewrite outcome_steps.
  destruct (new_URL P (selfUrl entry)) as [su|] eqn:Hsu; [|discriminate].
  destruct (new_URL P (downloadUrl entry)) as [du|] eqn:Hdu; [|discriminate].
  destruct (http P su []) as [mres|] eqn:Hm; [|discriminate].
  destruct (ok mres) eqn:Hmok; [|discriminate]. simpl.
  destruct (json_body mres) as [metadata|] eqn:Hmj; [|discriminate].
  destruct (JS.truthy metadata) eqn:Hmt; [|discriminate]. simpl.
  destruct (http P du []) as [res|] eqn:Hres; [|discriminate].
  destruct (ok res) eqn:Hrok; [|discriminate]. simpl.
  destruct (String.eqb_spec (text_body res) "") as [|Hne]; [discriminate|].
  destruct (parseData P _ _) as [d|] eqn:Hparse; [|discriminate].
  intros [= <-]. exists su, du, mres, res, metadata. repeat split; try assumption; reflexivity.
Qed.

Lemma returned_record_is_validated_witness :
  exists su du mres res metadata,
    new_URL demoPlatform (selfUrl demoEntry) = Some su
    /\ new_URL demoPlatform (downloadUrl demoEntry) = Some du
    /\ http demoPlatform su [] = Some mres /\ ok mres = true
    /\ json_body mres = Some metadata /\ JS.truthy metadata = true
    /\ http demoPlatform du [] = Some res /\ ok res = true
    /\ text_body res <> EmptyString
    /\ parseData demoPlatform (candidate_id metadata) (candidate metadata (text_body res))
       = JS.Return (demoRecord "See [Intro](/docs/intro.md#setup).").
Proof.
  apply (returned_record_is_validated demoPlatform demoEntry emptyWorld).
  reflexivity.
Defined.

(** X11: where the metadata response is not a success, or its JSON is
    falsy ([null], [false], [0], the empty string), the fetcher throws
    [Failed to fetch] with the metadata address; it has then sent the
    metadata request only, and the download is never requested. *)
Theorem metadata_failure_is_thrown (P : Platform) (entry : DiscoveredRef) (w : World)
  (su du : string) (mres : Response) :
  new_URL P (selfUrl entry) = Some su ->
  new_URL P (downloadUrl entry) = Some du ->
  http P su [] = Some mres ->
  ok mres = false \/ (exists v, json_body mres = Some v /\ JS.truthy v = false) ->
  parseEntry P entry w
  = (JS.Throw (JS.Error ("Failed to fetch " +:+ su)),
     {| store := store w; requests := requests w ++ [(su, [])] |}).
Proof.
  intros Hsu Hdu Hm Hbad. rewrite parseEntry_run, outcome_steps, requested_steps.
  rewrite Hsu, Hdu, Hm. destruct (ok mres); simpl.
  - destruct Hbad as [|(v & -> & ->)]; [discriminate | reflexivity].
  - now destruct (json_body mres).
Qed.

Lemma metadata_failure_is_thrown_witness :
  parseEntry (variantPlatform false "text") demoEntry emptyWorld
  = (JS.Throw (JS.Error
       "Failed to fetch https://api.github.com/repos/ollama/ollama/contents/docs/api.md?ref=main"),
     {| store := ∅;
        requests :=
          [("https://api.github.com/repos/ollama/ollama/contents/docs/api.md?ref=main", [])] |}).
Proof.
  apply (metadata_failure_is_thrown (variantPlatform false "text") demoEntry emptyWorld
           _ "https://raw.githubusercontent.com/ollama/ollama/main/docs/api.md"
           {| ok := false; json_body := Some demoMetadata; text_body := "" |});
    try reflexivity.
  now left.
Defined.

(** X12: where the metadata passed and the download response is not a
    success, or its text is empty, the fetcher throws [Failed to fetch] with
    the download address, after the two requests; the validation plays no
    part. *)
Theorem content_failure_is_thrown (P : Platform) (entry : DiscoveredRef) (w : World)
  (su du : string) (mres res : Response) (metadata : JS.value) :
  new_URL P (selfUrl entry) = Some su ->
  new_URL P (downloadUrl entry) = Some du ->
  http P su [] = Some mres -> ok mres = true ->
  json_body mres = Some metadata -> JS.truthy metadata = true ->
  http P du [] = Some res ->
  ok res = false \/ text_body res = EmptyString ->
  parseEntry P entry w
  = (JS.Throw (JS.Error ("Failed to fetch " +:+ du)),
     {| store := store w; requests := requests w ++ [(su, []); (du, [])] |}).
Proof.
  intros Hsu Hdu Hm Hmok Hmj Hmt Hr Hbad.
  rewrite parseEntry_run, outcome_steps, requested_steps.
  rewrite Hsu, Hdu, Hm, Hmok, Hmj, Hmt, Hr. simpl.
  destruct (ok res); simpl; [|reflexivity].
  destruct Hbad as [Hb | ->]; [discriminate | reflexivity].
Qed.

Lemma content_failure_is_thrown_witness :
  parseEntry (variantPlatform true "") demoEntry emptyWorld
  = (JS.Throw (JS.Error
       "Failed to fetch https://raw.githubusercontent.com/ollama/ollama/main/docs/api.md"),
     {| store := ∅;
        requests :=
          [("https://api.github.com/repos/ollama/ollama/contents/docs/api.md?ref=main", []);
           ("https://raw.githubusercontent.com/ollama/ollama/main/docs/api.md", [])] |}).
Proof.
  apply (content_failure_is_thrown (variantPlatform true "") demoEntry emptyWorld
           _ _
           {| ok := true; json_body := Some demoMetadata; text_body := "" |}
           (demoResponse None "") demoMetadata);
    try reflexivity.
  now right.
Defined.

(** ** More on the Sync Orchestrator *)

Lemma fetchDocsEntries_run (P : Platform) (options : Options) (w : World) :
  fetchDocsEntries P options w
  = (discovered P options,
     {| store := store w;
        requests := requests w
                    ++ requests (snd (fetchDocsEntries P options emptyWorld)) |}).
Proof.
  destruct w as [st rq]. unfold discovered, fetchDocsEntries, emptyWorld.
  destruct (new_URL P _) as [url|]; [|simpl; now rewrite app_nil_r].
  unfold bind, fetch, res_json, lift, throw, ret. simpl.
  destruct (http P url listingHeaders) as [res|]; [|reflexivity].
  destruct (ok res); [|reflexivity]. cbn [negb].
  destruct (json_body res) as [[]|]; reflexivity.
Qed.

Lemma promise_all_result (P : Platform) (order : list DiscoveredRef) (w : World) :
  fst (promise_all (map (entryTask P) order) w) = firstError P order.
Proof.
  revert w. induction order as [|entry order IH]; intros w; [reflexivity|].
  simpl. rewrite entryTask_run.
  destruct (outcome P entry) as [[data|]|e]; simpl; now rewrite ?IH.
Qed.

Lemma promise_all_requests (P : Platform) (order : list DiscoveredRef) (w : World) :
  requests (snd (promise_all (map (entryTask P) order) w))
  = (requests w ++ concat (map (requested P) order))%list.
Proof.
  revert w. induction order as [|entry order IH]; intros w; simpl.
  - now rewrite app_nil_r.
  - rewrite entryTask_run.
    destruct (outcome P entry) as [[data|]|e]; simpl; rewrite IH; simpl;
      now rewrite app_assoc.
Qed.

Lemma load_result (P : Platform) (options : Options) (w : World) :
  fst (load (ollamaDocsLoader options) P w)
  = match discovered P options with
    | JS.Return entries => firstError P (schedule P entries)
    | JS.Throw e => JS.Throw e
    end.
Proof.
  simpl. unfold bind. rewrite fetchDocsEntries_run.
  destruct (discovered P options); [apply promise_all_result | reflexivity].
Qed.

Lemma load_store (P : Platform) (options : Options) (w : World) :
  store (snd (load (ollamaDocsLoader options) P w))
  = write_all (store w) (runWrites P options).
Proof.
  simpl. unfold bind, runWrites. rewrite fetchDocsEntries_run.
  destruct (discovered P options); [now rewrite promise_all_store | reflexivity].
Qed.

Lemma discovered_fst (P : Platform) (options : Options) (w : World) :
  fst (fetchDocsEntries P options w) = discovered P options.
Proof. now rewrite fetchDocsEntries_run. Qed.

Lemma firstError_Return (P : Platform) (order : list DiscoveredRef) :
  firstError P order = JS.Return tt <->
  forall entry, In entry order -> forall e, outcome P entry <> JS.Throw e.
Proof.
  induction order as [|x order IH]; simpl; [easy|].
  destruct (outcome P x) as [r|e] eqn:Hx.
  - rewrite IH. split.
    + intros H entry [<-|Hin]; [congruence | now apply H].
    + intros H entry Hin. apply H. now right.
  - split; [discriminate|]. intros H. exfalso. apply (H x (or_introl eq_refl) e Hx).
Qed.


Lemma written_In_inv (P : Platform) (order : list DiscoveredRef) (data : Doc.record) :
  In data (written P order) ->
  exists entry, In entry order /\ outcome P entry = JS.Return (Some data).
Proof.
  induction order as [|x order IH]; simpl; [easy|].
  destruct (outcome P x) as [[d|]|e] eqn:Hx.
  - intros [->|Hin]; [exists x; auto|].
    destruct (IH Hin) as (entry & ? & ?). exists entry. auto.
  - intros Hin. destruct (IH Hin) as (entry & ? & ?). exists entry. auto.
  - intros Hin. destruct (IH Hin) as (entry & ? & ?). exists entry. auto.
Qed.

(** X13: once discovery has returned its entries, the run ends without an
    error exactly when the fetcher throws for none of them. *)
Theorem load_returns_iff_no_entry_throws (P : Platform) (options : Options) (w : World)
  (entries : list DiscoveredRef) :
  fst (fetchDocsEntries P options w) = JS.Return entries ->
  (fst (load (ollamaDocsLoader options) P w) = JS.Return tt <->
   forall entry, In entry entries -> forall e, outcome P entry <> JS.Throw e).
Proof.
  rewrite discovered_fst, load_result. intros ->. rewrite firstError_Return.
  pose proof (schedule_runs_all P entries) as Hperm.
  split; intros H entry Hin; apply H.
  - eapply Permutation_in; [symmetry; exact Hperm | exact Hin].
  - eapply Permutation_in; [exact Hperm | exact Hin].
Qed.

Lemma load_returns_iff_no_entry_throws_witness :
  fst (load (ollamaDocsLoader demoOptions) demoPlatform emptyWorld) = JS.Return tt.
Proof.
  refine (proj2 (load_returns_iff_no_entry_throws demoPlatform demoOptions emptyWorld
                   [demoEntry; demoEntry2] eq_refl) _).
  intros entry [<-|[<-|[]]] e H; vm_compute in H; discriminate.
Defined.

Lemma firstError_Throw (P : Platform) (order : list DiscoveredRef) (e : JS.error) :
  firstError P order = JS.Throw e ->
  exists entry, In entry order /\ outcome P entry = JS.Throw e.
Proof.
  induction order as [|x order IH]; simpl; [discriminate|].
  destruct (outcome P x) as [r|e'] eqn:Hx.
  - intros (entry & Hin & He)%IH. exists entry. auto.
  - intros [= ->]. exists x. auto.
Qed.

(** X14: where the fetcher throws for a discovered entry, the run ends
    with an error, and this error is one that the fetcher threw for a
    discovered entry, in whatever order the tasks get to their end; where
    the fetcher throws the same error for every entry it throws for, the
    run ends with that error. *)
Theorem entry_failure_rejects_run (P : Platform) (options : Options) (w : World)
  (entries : list DiscoveredRef) (entry : DiscoveredRef) (e : JS.error) :
  fst (fetchDocsEntries P options w) = JS.Return entries ->
  In entry entries ->
  outcome P entry = JS.Throw e ->
  (exists entry' e',
      In entry' entries /\ outcome P entry' = JS.Throw e'
      /\ fst (load (ollamaDocsLoader options) P w) = JS.Throw e')
  /\ ((forall x e', In x entries -> outcome P x = JS.Throw e' -> e' = e) ->
      fst (load (ollamaDocsLoader options) P w) = JS.Throw e).
Proof.
  rewrite discovered_fst, load_result. intros -> Hin He.
  pose proof (schedule_runs_all P entries) as Hperm.
  assert (Hsome : exists entry' e',
             In entry' entries /\ outcome P entry' = JS.Throw e'
             /\ firstError P (schedule P entries) = JS.Throw e').
  { destruct (firstError P (schedule P entries)) as [[]|e'] eqn:Hf.
    - exfalso. refine (proj1 (firstError_Return P _) Hf entry _ e He).
      eapply Permutation_in; [symmetry; exact Hperm | exact Hin].
    - destruct (firstError_Throw P _ e' Hf) as (entry' & Hin' & He').
      exists entry', e'. repeat split; try assumption.
      eapply Permutation_in; [exact Hperm | exact Hin']. }
  split; [exact Hsome|]. intros Hsame.
  destruct Hsome as (entry' & e' & Hin' & He' & ->).
  now rewrite (Hsame entry' e' Hin' He').
Qed.

Lemma entry_failure_rejects_run_witness :
  fst (load (ollamaDocsLoader demoOptions) (variantPlatform true "") emptyWorld)
  = JS.Throw (JS.Error
      "Failed to fetch https://raw.githubusercontent.com/ollama/ollama/main/docs/api.md").
Proof.
  refine (proj2 (entry_failure_rejects_run (variantPlatform true "") demoOptions emptyWorld
                   [demoEntry; demoEntry2] demoEntry _
                   eq_refl (or_introl eq_refl) eq_refl) _).
  intros x e' [<-|[<-|[]]] H; vm_compute in H; now inversion H.
Defined.

(** X15: a run only adds to the store and overwrites: a key that had a
    record has one afterwards, and a key whose record is no longer what it
    was is the [url] of a record that the fetcher returned for a discovered
    entry in this run, and holds such a record.  Records of documents that
    are no longer listed stay. *)
Theorem load_only_writes_fetched (P : Platform) (options : Options) (w : World) :
  (forall k, is_Some (store w !! k) ->
             is_Some (store (snd (load (ollamaDocsLoader options) P w)) !! k))
  /\ (forall k,
         store (snd (load (ollamaDocsLoader options) P w)) !! k <> store w !! k ->
         exists entries entry data,
           fst (fetchDocsEntries P options w) = JS.Return entries
           /\ In entry entries
           /\ outcome P entry = JS.Return (Some data)
           /\ Doc.url data = k
           /\ store (snd (load (ollamaDocsLoader options) P w)) !! k = Some data).
Proof.
  rewrite load_store.
  assert (Hcases : forall k,
             write_all (store w) (runWrites P options) !! k = store w !! k
             \/ exists data, In data (runWrites P options) /\ Doc.url data = k
                             /\ write_all (store w) (runWrites P options) !! k = Some data).
  { intros k.
    destruct (List.existsb (fun d => String.eqb (Doc.url d) k) (runWrites P options))
      eqn:Hex.
    - right. apply List.existsb_exists in Hex as (d & Hd & Hu%String.eqb_eq).
      destruct (write_all_lookup (store w) _ _ Hd) as (d' & Hl & Hd' & Hu').
      exists d'. rewrite <- Hu. repeat split; assumption.
    - left. apply write_all_other. intros d Hd Hu.
      apply not_true_iff_false in Hex. apply Hex. apply List.existsb_exists.
      exists d. split; [exact Hd | now apply String.eqb_eq]. }
  split.
  - intros k Hk. destruct (Hcases k) as [->|(d' & _ & _ & ->)]; eauto.
  - intros k Hne. destruct (Hcases k) as [Heq|(data & Hin & Hu & Hl)]; [easy|].
    unfold runWrites in Hin. rewrite discovered_fst.
    destruct (discovered P options) as [entries|]; [|easy].
    apply written_In_inv in Hin as (entry & Hin & Hout).
    exists entries, entry, data. repeat split; try assumption.
    eapply Permutation_in; [apply schedule_runs_all | exact Hin].
Qed.

(** X16: a run keeps the store keyed: where every record lay under its
    [url] before the run, every record does so afterwards, however the run
    ends. *)
Theorem load_keeps_keyed (P : Platform) (options : Options) (w : World) :
  keyed (store w) -> keyed (store (snd (load (ollamaDocsLoader options) P w))).
Proof. rewrite load_store. apply write_all_keyed. Qed.

Lemma load_keeps_keyed_witness :
  keyed (store (snd (load (ollamaDocsLoader demoOptions) (variantPlatform true "") emptyWorld))).
Proof.
  apply (load_keeps_keyed (variantPlatform true "") demoOptions emptyWorld).
  intros k d H. simpl in H. rewrite lookup_empty in H. discriminate.
Defined.











Lemma requested_length (P : Platform) (entry : DiscoveredRef) :
  length (requested P entry) <= 2.
Proof.
  rewrite requested_steps.
  destruct (new_URL P (selfUrl entry)); [|simpl; lia].
  destruct (new_URL P (downloadUrl entry)); [|simpl; lia].
  destruct (http P _ _) as [mres|]; [|simpl; lia].
  destruct (json_body mres); [|simpl; lia].
  destruct (ok mres && JS.truthy _); simpl; lia.
Qed.

Lemma concat_requested_length (P : Platform) (order : list DiscoveredRef) :
  length (concat (map (requested P) order)) <= 2 * length order.
Proof.
  induction order as [|x order IH]; simpl; [lia|].
  rewrite length_app. pose proof (requested_length P x). lia.
Qed.

(** X18: a run sends the listing request and at most two requests for every
    discovered entry, the metadata and the download: nothing is requested
    twice over. *)
Theorem load_request_bound (P : Platform) (options : Options) (w : World)
  (entries : list DiscoveredRef) :
  fst (fetchDocsEntries P options w) = JS.Return entries ->
  length (requests (snd (load (ollamaDocsLoader options) P w)))
  <= length (requests w) + 1 + 2 * length entries.
Proof.
  intros Hd. simpl. unfold bind.
  pose proof (fetchDocsEntries_requests P options w) as Hreq.
  destruct (fetchDocsEntries P options w) as [[es|e] w1]; simpl in *; [|discriminate].
  injection Hd as ->. rewrite promise_all_requests, length_app, Hreq, length_app.
  pose proof (concat_requested_length P (schedule P entries)) as Hlen.
  rewrite (Permutation_length (schedule_runs_all P entries)) in Hlen.
  destruct (new_URL P (listingUrl options)); simpl; lia.
Qed.

Lemma load_request_bound_witness :
  length (requests (snd (load (ollamaDocsLoader demoOptions) demoPlatform emptyWorld)))
  <= length (requests emptyWorld) + 1 + 2 * length [demoEntry; demoEntry2].
Proof.
  apply (load_request_bound demoPlatform demoOptions emptyWorld [demoEntry; demoEntry2]).
  reflexivity.
Defined.

(** ** The schema and the candidate *)

Lemma z_string_Some (v : JS.value) (s : string) :
  z_string v = Some s <-> v = JS.VStr s.
Proof. destruct v; simpl; split; congruence. Qed.

Lemma z_number_Some (v : JS.value) (n : Z) :
  z_number v = Some n <-> v = JS.VNum n.
Proof. destruct v; simpl; split; congruence. Qed.

Lemma z_links_Some (v : JS.value) (l : Doc.links) :
  z_links v = Some l <->
  exists fields,
    v = JS.VObj fields
    /\ JS.lookup "self" fields = JS.VStr (Doc.self l)
    /\ JS.lookup "git" fields = JS.VStr (Doc.git l)
    /\ JS.lookup "html" fields = JS.VStr (Doc.html l).
Proof.
  split.
  - destruct v as [| | | | | |fields]; simpl; try discriminate.
    destruct (z_string (JS.lookup "self" fields)) as [a|] eqn:Ha; [|discriminate].
    destruct (z_string (JS.lookup "git" fields)) as [b|] eqn:Hb; [|discriminate].
    destruct (z_string (JS.lookup "html" fields)) as [c|] eqn:Hc; [|discriminate].
    simpl. intros [= <-]. exists fields. simpl.
    apply z_string_Some in Ha, Hb, Hc. easy.
  - intros (fields & -> & Ha & Hb & Hc). simpl. rewrite Ha, Hb, Hc. simpl.
    now destruct l.
Qed.

Lemma docsSchema_Some (data : list (string * JS.value)) (d : Doc.record) :
  docsSchema data = Some d ->
  JS.lookup "name" data = JS.VStr (Doc.name d)
  /\ JS.lookup "path" data = JS.VStr (Doc.path d)
  /\ JS.lookup "sha" data = JS.VStr (Doc.sha d)
  /\ JS.lookup "size" data = JS.VNum (Doc.size d)
  /\ JS.lookup "url" data = JS.VStr (Doc.url d)
  /\ JS.lookup "html_url" data = JS.VStr (Doc.html_url d)
  /\ JS.lookup "git_url" data = JS.VStr (Doc.git_url d)
  /\ JS.lookup "download_url" data = JS.VStr (Doc.download_url d)
  /\ JS.lookup "type" data = JS.VStr (Doc.type_ d)
  /\ JS.lookup "content" data = JS.VStr (Doc.content d)
  /\ JS.lookup "encoding" data = JS.VStr (Doc.encoding d)
  /\ z_links (JS.lookup "_links" data) = Some (Doc.links_ d).
Proof.
  unfold docsSchema.
  destruct (z_string (JS.lookup "name" data)) as [x1|] eqn:H1; [|discriminate].
  destruct (z_string (JS.lookup "path" data)) as [x2|] eqn:H2; [|discriminate].
  destruct (z_string (JS.lookup "sha" data)) as [x3|] eqn:H3; [|discriminate].
  destruct (z_number (JS.lookup "size" data)) as [x4|] eqn:H4; [|discriminate].
  destruct (z_string (JS.lookup "url" data)) as [x5|] eqn:H5; [|discriminate].
  destruct (z_string (JS.lookup "html_url" data)) as [x6|] eqn:H6; [|discriminate].
  destruct (z_string (JS.lookup "git_url" data)) as [x7|] eqn:H7; [|discriminate].
  destruct (z_string (JS.lookup "download_url" data)) as [x8|] eqn:H8; [|discriminate].
  destruct (z_string (JS.lookup "type" data)) as [x9|] eqn:H9; [|discriminate].
  destruct (z_string (JS.lookup "content" data)) as [x10|] eqn:H10; [|discriminate].
  destruct (z_string (JS.lookup "encoding" data)) as [x11|] eqn:H11; [|discriminate].
  destruct (z_links (JS.lookup "_links" data)) as [x12|] eqn:H12; [|discriminate].
  simpl. intros [= <-]. simpl.
  apply z_string_Some in H1, H2, H3, H5, H6, H7, H8, H9, H10, H11.
  apply z_number_Some in H4. easy.
Qed.

(** X19: the schema accepts exactly the objects whose eleven scalar fields
    have their kinds and whose [_links] is an object with three string
    fields, and the record it returns is made of the values of these
    fields; any other field of the object is dropped. *)
Theorem schema_accepts_exactly (data : list (string * JS.value)) (d : Doc.record) :
  docsSchema data = Some d <->
  JS.lookup "name" data = JS.VStr (Doc.name d)
  /\ JS.lookup "path" data = JS.VStr (Doc.path d)
  /\ JS.lookup "sha" data = JS.VStr (Doc.sha d)
  /\ JS.lookup "size" data = JS.VNum (Doc.size d)
  /\ JS.lookup "url" data = JS.VStr (Doc.url d)
  /\ JS.lookup "html_url" data = JS.VStr (Doc.html_url d)
  /\ JS.lookup "git_url" data = JS.VStr (Doc.git_url d)
  /\ JS.lookup "download_url" data = JS.VStr (Doc.download_url d)
  /\ JS.lookup "type" data = JS.VStr (Doc.type_ d)
  /\ JS.lookup "content" data = JS.VStr (Doc.content d)
  /\ JS.lookup "encoding" data = JS.VStr (Doc.encoding d)
  /\ exists fields,
       JS.lookup "_links" data = JS.VObj fields
       /\ JS.lookup "self" fields = JS.VStr (Doc.self (Doc.links_ d))
       /\ JS.lookup "git" fields = JS.VStr (Doc.git (Doc.links_ d))
       /\ JS.lookup "html" fields = JS.VStr (Doc.html (Doc.links_ d)).
Proof.
  split.
  - intros H%docsSchema_Some. rewrite z_links_Some in H. exact H.
  - intros (H1 & H2 & H3 & H4 & H5 & H6 & H7 & H8 & H9 & H10 & H11 & H12).
    apply z_links_Some in H12. unfold docsSchema.
    rewrite H1, H2, H3, H4, H5, H6, H7, H8, H9, H10, H11, H12. simpl.
    now destruct d.
Qed.

(** X20: where the schema accepts the candidate made from a metadata and a
    text, the [content] of the record is the rewritten text, whatever
    [content] the metadata had, every other scalar field is the field of
    the metadata, and for a metadata object the id handed to the validation
    is the [url] of the record: the key of the store is the [url] of the
    metadata. *)
Theorem validated_candidate (metadata : JS.value) (text : string) (d : Doc.record) :
  docsSchema (candidate metadata text) = Some d ->
  Doc.content d = transformMarkdownLinks text
  /\ JS.lookup "name" (JS.spread metadata) = JS.VStr (Doc.name d)
  /\ JS.lookup "path" (JS.spread metadata) = JS.VStr (Doc.path d)
  /\ JS.lookup "sha" (JS.spread metadata) = JS.VStr (Doc.sha d)
  /\ JS.lookup "size" (JS.spread metadata) = JS.VNum (Doc.size d)
  /\ JS.lookup "url" (JS.spread metadata) = JS.VStr (Doc.url d)
  /\ JS.lookup "html_url" (JS.spread metadata) = JS.VStr (Doc.html_url d)
  /\ JS.lookup "git_url" (JS.spread metadata) = JS.VStr (Doc.git_url d)
  /\ JS.lookup "download_url" (JS.spread metadata) = JS.VStr (Doc.download_url d)
  /\ JS.lookup "type" (JS.spread metadata) = JS.VStr (Doc.type_ d)
  /\ JS.lookup "encoding" (JS.spread metadata) = JS.VStr (Doc.encoding d)
  /\ (forall fields, metadata = JS.VObj fields ->
                     candidate_id metadata = JS.VStr (Doc.url d)).
Proof.
  intros H%docsSchema_Some. unfold candidate in H.
  rewrite lookup_assign_eq in H. rewrite !lookup_assign_ne in H by discriminate.
  destruct H as (H1 & H2 & H3 & H4 & H5 & H6 & H7 & H8 & H9 & H10 & H11 & _).
  injection H10 as H10. repeat split; try assumption; try congruence.
  intros fields ->. exact H5.
Qed.

Lemma validated_candidate_witness :
  Doc.content (demoRecord "See [Intro](/docs/intro.md#setup).")
  = transformMarkdownLinks "See [Intro](./intro.md#setup).".
Proof.
  apply (validated_candidate demoMetadata "See [Intro](./intro.md#setup)."
           (demoRecord "See [Intro](/docs/intro.md#setup).")).
  reflexivity.
Defined.

(** ** An entry that cannot be parsed is skipped *)


